(** * Gabriel graph construction of [GraphTools] (src/spatial.py)

    A shallow embedding of the class [GraphTools]: the geometry kernel
    [_inside_midpoint_circle], the edge filter [_gabriel_graph], and the
    object protocol around them ([__init__], [delaunay], [gabriel_graph]).

    - A NumPy array is generic in its dtype; the code only uses [-],
      [np.power(., 2)], [np.sum], [+] and [>] on coordinates.  The class
      [Dtype] is that interface.  [float] is NumPy's default dtype,
      [float64]: IEEE 754 binary64 with round to nearest even, as the
      kernel's primitive floats implement it and [SpecFloat] specifies
      it.  [Z] is the instance of integer coordinates without overflow.
      [R] is exact real arithmetic, which no array has: it is used only
      where a statement says so.
    - A [frozenset] of indices is a [gset nat]; the returned [set] of
      frozensets is a [gset (gset nat)].
    - [scipy.spatial.Delaunay] is an external library: it is a parameter
      of the development.
    - Attribute assignments made before an exception is raised stay in
      the object, so methods run in a monad that returns the object state
      together with the value or the exception.

    The program comes first, then the vocabulary of the statements and
    the sample inputs, then the proofs. *)

From Stdlib Require Import Floats ZArith Reals Lra Lia.
From stdpp Require Import base option list gmap sets strings.

Set Warnings "-clear-no-such-hyp".

(** ** Exceptions and results *)

Inductive exn : Type :=
  | AssertionError (msg : string)     (* a failed [assert cond, msg] *)
  | AttributeError (attr : string)    (* reading an attribute never assigned *)
  | IndexError                        (* [points[i]] with [i] out of range *)
  | DegenerateInputError              (* raised by the triangulation provider *)
  | ProviderError (code : nat).       (* any other failure of the provider *)

Inductive result (X : Type) : Type :=
  | Ok (x : X)
  | Raise (e : exn).
Arguments Ok {X} x.
Arguments Raise {X} e.

#[global] Instance exn_eq_dec : EqDecision exn.
Proof. solve_decision. Defined.

#[global] Instance result_eq_dec {X} `{EqDecision X} : EqDecision (result X).
Proof. solve_decision. Defined.

Definition is_ok {X} (r : result X) : bool :=
  match r with Ok _ => true | Raise _ => false end.

(** A loop whose body may raise: the first exception ends the loop. *)
Fixpoint foldM {S X : Type} (f : S → X → result S) (s : S) (l : list X) : result S :=
  match l with
  | [] => Ok s
  | x :: t => match f s x with
              | Ok s' => foldM f s' t
              | Raise e => Raise e
              end
  end.

(** ** The dtype of a coordinate array *)

Class Dtype (A : Type) : Type := {
  d_zero : A;
  d_add : A → A → A;
  d_sub : A → A → A;
  d_mul : A → A → A;
  d_gtb : A → A → bool
}.

(** What the order-insensitive statements need from the arithmetic:
    [(a-b)^2 = (b-a)^2] and commutativity of [+].  Both hold for exact
    integers and reals, and for IEEE floats. *)
Class DtypeSym (A : Type) `{Dtype A} : Prop := {
  d_sq_sub_sym : ∀ a b : A, d_mul (d_sub a b) (d_sub a b) = d_mul (d_sub b a) (d_sub b a);
  d_add_comm : ∀ a b : A, d_add a b = d_add b a
}.

(** What the statements on ties need from the comparison: no value is
    greater than itself.  It holds for exact integers and reals, and for
    IEEE floats, NaN included. *)
Class DtypeOrder (A : Type) `{Dtype A} : Prop := {
  d_gtb_irrefl : ∀ a : A, d_gtb a a = false
}.

(** What the statement on equal sides needs: a square is not below zero,
    the sum of two values that are not below zero is not below zero, and
    such a value is not greater than its double.  All three hold for
    exact integers and reals and for IEEE floats, where a sum may
    overflow to infinity; they fail for integers that wrap around. *)
Class DtypeNonneg (A : Type) `{Dtype A} : Prop := {
  d_sq_nonneg : ∀ a : A, d_gtb d_zero (d_mul a a) = false;
  d_add_nonneg : ∀ a b : A,
    d_gtb d_zero a = false → d_gtb d_zero b = false → d_gtb d_zero (d_add a b) = false;
  d_double_ge : ∀ a : A, d_gtb d_zero a = false → d_gtb a (d_add a a) = false
}.

(** [float64], the dtype of an array built from Python floats: every
    operation rounds to nearest even, and [a > b] is the IEEE comparison,
    false when an operand is NaN. *)
#[global] Instance float64_dtype : Dtype float :=
  {| d_zero := 0%float; d_add := PrimFloat.add; d_sub := PrimFloat.sub;
     d_mul := PrimFloat.mul; d_gtb := λ a b, PrimFloat.ltb b a |}.

#[global] Instance float_eq_dec : EqDecision float.
Proof.
  intros a b. destruct (Leibniz.eqb a b) eqn:Hab.
  - left. by apply Leibniz.eqb_spec.
  - right. intros Heq. apply Leibniz.eqb_spec in Heq. congruence.
Defined.

(** Integer coordinates, as long as no operation overflows. *)
#[global] Instance Z_dtype : Dtype Z :=
  {| d_zero := 0%Z; d_add := Z.add; d_sub := Z.sub; d_mul := Z.mul; d_gtb := Z.gtb |}.

Definition Rgtb (a b : R) : bool := if Rlt_dec b a then true else false.

(** Exact real arithmetic, without rounding.  It is not the arithmetic
    of any array; a statement over [R] says what the formulas give when
    nothing is rounded. *)
#[global] Instance R_dtype : Dtype R :=
  {| d_zero := 0%R; d_add := Rplus; d_sub := Rminus; d_mul := Rmult; d_gtb := Rgtb |}.

(** ** Python values used by the builder *)

(** A row of the [points] array. *)
Definition Point (A : Type) : Type := list A.

(** A row of [triangulation.simplices]: the vertex indices of a simplex. *)
Definition Simplex : Type := list nat.

(** [frozenset(edge)]. *)
Abbreviation Edge := (gset nat).

(** [itertools.combinations(l, 2)]: pairs of positions [i < j], in
    lexicographic order of the positions. *)
Fixpoint combinations2 {X : Type} (l : list X) : list (X * X) :=
  match l with
  | [] => []
  | x :: t => map (pair x) t ++ combinations2 t
  end.

(** [frozenset(edge)] for a 2-tuple [edge]. *)
Definition frozenset (edge : nat * nat) : Edge := {[ edge.1; edge.2 ]}.

(** [edge == f] for a tuple [edge] and a frozenset [f]: in Python a tuple
    never compares equal to a frozenset, whatever they contain. *)
Definition tuple_eq_frozenset (edge : nat * nat) (f : Edge) : bool := false.

(** [edge in removed_edges], for a tuple [edge] and a list of frozensets. *)
Definition tuple_in (edge : nat * nat) (removed_edges : list Edge) : bool :=
  existsb (tuple_eq_frozenset edge) removed_edges.

(** [set(simplex).difference(set(edge))], in the iteration order of the set. *)
Definition neighbors (simplex : Simplex) (edge : nat * nat) : list nat :=
  elements ((list_to_set simplex : gset nat) ∖ (list_to_set [edge.1; edge.2])).

(** [points[i]] *)
Definition getitem {X : Type} (points : list X) (i : nat) : result X :=
  match points !! i with
  | Some p => Ok p
  | None => Raise IndexError
  end.

(** ** Geometry kernel *)

Section Kernel.
Context {A : Type} `{Dtype A}.

(** [np.sum(np.power(x - y, 2))].  Rows of one array have the same
    length, so the element-wise difference pairs all coordinates.  The
    square is the product of the difference with itself, and the sum
    adds the squares from left to right, which is the order of NumPy on
    a row of fewer than eight entries. *)
Definition np_sub (x y : Point A) : Point A := zip_with d_sub x y.
Definition np_power2 (v : Point A) : Point A := map (λ c, d_mul c c) v.
Definition np_sum (v : Point A) : A := foldl d_add d_zero v.

Definition sq_dist (x y : Point A) : A := np_sum (np_power2 (np_sub x y)).

Definition _inside_midpoint_circle (x y point : Point A) : bool :=
  let diam_sq := sq_dist x y in
  d_gtb diam_sq (d_add (sq_dist x point) (sq_dist y point)).

(** ** The edge filter, loop by loop *)

(** Body of [for neighbor in set(simplex).difference(set(edge))]. *)
Definition neighbor_step (points : list (Point A)) (edge : nat * nat)
    (edge_point_x edge_point_y : Point A)
    (removed_edges : list Edge) (neighbor : nat) : result (list Edge) :=
  match getitem points neighbor with
  | Raise e => Raise e
  | Ok neighbor_point =>
      if _inside_midpoint_circle edge_point_x edge_point_y neighbor_point
      then Ok (removed_edges ++ [frozenset edge])
      else Ok removed_edges
  end.

(** Body of [for edge in combinations(simplex, 2)]; the loop state is
    the pair [(edges, removed_edges)]. *)
Definition edge_step (points : list (Point A)) (simplex : Simplex)
    (st : list Edge * list Edge) (edge : nat * nat) : result (list Edge * list Edge) :=
  let '(edges, removed_edges) := st in
  if negb (tuple_in edge removed_edges) then
    let edges := edges ++ [frozenset edge] in
    match getitem points edge.1 with
    | Raise e => Raise e
    | Ok edge_point_x =>
        match getitem points edge.2 with
        | Raise e => Raise e
        | Ok edge_point_y =>
            match foldM (neighbor_step points edge edge_point_x edge_point_y)
                        removed_edges (neighbors simplex edge) with
            | Raise e => Raise e
            | Ok removed_edges => Ok (edges, removed_edges)
            end
        end
    end
  else Ok (edges, removed_edges).

(** Body of [for simplex in simplices]. *)
Definition simplex_step (points : list (Point A))
    (st : list Edge * list Edge) (simplex : Simplex) : result (list Edge * list Edge) :=
  foldM (edge_step points simplex) st (combinations2 simplex).

(** [_gabriel_graph] after its assertion and attribute reads: the two
    loops and the final set difference. *)
Definition gabriel_filter (points : list (Point A)) (simplices : list Simplex)
    : result (gset Edge) :=
  match foldM (simplex_step points) ([], []) simplices with
  | Raise e => Raise e
  | Ok (edges, removed_edges) =>
      Ok ((list_to_set edges : gset Edge) ∖ list_to_set removed_edges)
  end.
End Kernel.

(** ** The triangulation object and the [GraphTools] object *)

Module Delaunay.
(** The part of a [scipy.spatial.Delaunay] object the code reads. *)
Record t : Type := mk { simplices : list Simplex }.
End Delaunay.

#[global] Instance Delaunay_eq_dec : EqDecision Delaunay.t.
Proof. solve_decision. Defined.

Section Object.
Context {A : Type} `{Dtype A}.
(** The type of the callables accepted as [metric]. *)
Context {Callable : Type}.
(** [Delaunay(points)]: the constructor of the triangulation provider. *)
Variable Delaunay : list (Point A) → result Delaunay.t.

(** The attributes of a [GraphTools] object; [None] is an attribute that
    has not been assigned.  [metric] holds a Python value that may
    itself be [None]. *)
Record GraphTools : Type := mkGraphTools {
  points : option (list (Point A));
  triangulation : option Delaunay.t;
  simplices : option (list Simplex);
  gabriel_edges : option (gset Edge);
  metric : option (option Callable)
}.

(** The object handed to [__init__] by the constructor call. *)
Definition fresh : GraphTools :=
  {| points := None; triangulation := None; simplices := None;
     gabriel_edges := None; metric := None |}.

(** A method body: from the object before to a value or an exception,
    and the object after. *)
Definition M (X : Type) : Type := GraphTools → result X * GraphTools.

Definition ret {X} (x : X) : M X := λ self, (Ok x, self).
Definition raise {X} (e : exn) : M X := λ self, (Raise e, self).
Definition bind {X Y} (m : M X) (k : X → M Y) : M Y :=
  λ self, match m self with
          | (Ok x, self') => k x self'
          | (Raise e, self') => (Raise e, self')
          end.
Definition lift {X} (r : result X) : M X := λ self, (r, self).

#[local] Instance M_ret : MRet M := @ret.
#[local] Instance M_bind : MBind M := λ X Y k m, bind m k.

(** [self.attr], failing when the attribute was never assigned. *)
Definition getattr {X} (field : GraphTools → option X) (name : string) : M X :=
  λ self, match field self with
          | Some v => (Ok v, self)
          | None => (Raise (AttributeError name), self)
          end.

(** The assignments [self.points = v], [self.triangulation = v], ... *)
Definition set_points (v : list (Point A)) : M unit :=
  λ self, (Ok tt, {| points := Some v; triangulation := triangulation self;
                     simplices := simplices self; gabriel_edges := gabriel_edges self;
                     metric := metric self |}).
Definition set_triangulation (v : Delaunay.t) : M unit :=
  λ self, (Ok tt, {| points := points self; triangulation := Some v;
                     simplices := simplices self; gabriel_edges := gabriel_edges self;
                     metric := metric self |}).
Definition set_simplices (v : list Simplex) : M unit :=
  λ self, (Ok tt, {| points := points self; triangulation := triangulation self;
                     simplices := Some v; gabriel_edges := gabriel_edges self;
                     metric := metric self |}).
Definition set_gabriel_edges (v : gset Edge) : M unit :=
  λ self, (Ok tt, {| points := points self; triangulation := triangulation self;
                     simplices := simplices self; gabriel_edges := Some v;
                     metric := metric self |}).
Definition set_metric (v : option Callable) : M unit :=
  λ self, (Ok tt, {| points := points self; triangulation := triangulation self;
                     simplices := simplices self; gabriel_edges := gabriel_edges self;
                     metric := Some v |}).

(** [_delaunay_triangulation(self, points)]; the [None] branch is the
    failing [assert points is not None, "No points!"]. *)
Definition _delaunay_triangulation (pts : option (list (Point A))) : M Delaunay.t :=
  match pts with
  | None => raise (AssertionError "No points!")
  | Some p => lift (Delaunay p)
  end.

(** [_gabriel_graph(self, points)]: the assertion, the read of
    [self.triangulation] and of its [simplices], then the filter. *)
Definition _gabriel_graph (pts : option (list (Point A))) : M (gset Edge) :=
  match pts with
  | None => raise (AssertionError "No points!")
  | Some p =>
      tri ← getattr triangulation "triangulation";
      lift (gabriel_filter p (Delaunay.simplices tri))
  end.

(** [__init__(self, points=None, metric=None)] *)
Definition __init__ (pts : option (list (Point A))) (m : option Callable) : M unit :=
  match pts with
  | Some p =>
      set_points p ;;
      tri ← _delaunay_triangulation pts;
      set_triangulation tri ;;
      tri' ← getattr triangulation "triangulation";
      set_simplices (Delaunay.simplices tri') ;;
      g ← _gabriel_graph pts;
      set_gabriel_edges g
  | None => ret tt
  end ;;
  set_metric m.

(** [delaunay(self, points=None)] *)
Definition delaunay (pts : option (list (Point A))) : M Delaunay.t :=
  match pts with
  | Some _ => __init__ pts None
  | None => ret tt
  end ;;
  getattr triangulation "triangulation".

(** [gabriel_graph(self, points=None)] *)
Definition gabriel_graph (pts : option (list (Point A))) : M (gset Edge) :=
  match pts with
  | Some _ => __init__ pts None
  | None => ret tt
  end ;;
  getattr gabriel_edges "gabriel_edges".

(** [GraphTools(points, metric)]: the constructor call yields the object
    when [__init__] returns and propagates its exception otherwise. *)
Definition new (pts : option (list (Point A))) (m : option Callable) : result GraphTools :=
  match __init__ pts m fresh with
  | (Ok _, self) => Ok self
  | (Raise e, _) => Raise e
  end.
End Object.

Arguments GraphTools A Callable : clear implicits.
Arguments mkGraphTools {A Callable}.
Arguments fresh {A Callable}.

(** ** Vocabulary of the statements *)

Section Vocabulary.
Context {A : Type} `{Dtype A}.
Implicit Types (points : list (Point A)) (simplices : list Simplex).
Implicit Types (simplex : Simplex) (edge : nat * nat) (a b c : nat).

(** Some vertex of [simplex] other than the endpoints of [edge] is
    reported inside the circle of [edge] by the kernel. *)
Definition violates points simplex edge : Prop :=
  ∃ c px py pc,
    c ∈ simplex ∧ c ≠ edge.1 ∧ c ≠ edge.2 ∧
    points !! edge.1 = Some px ∧ points !! edge.2 = Some py ∧ points !! c = Some pc ∧
    _inside_midpoint_circle px py pc = true.

(** [e] is appended to [edges] at some point of the run. *)
Definition candidate simplices (e : Edge) : Prop :=
  ∃ simplex edge,
    simplex ∈ simplices ∧ edge ∈ combinations2 simplex ∧ e = frozenset edge.

(** [e] is appended to [removed_edges] at some point of the run. *)
Definition removed points simplices (e : Edge) : Prop :=
  ∃ simplex edge,
    simplex ∈ simplices ∧ edge ∈ combinations2 simplex ∧ e = frozenset edge ∧
    violates points simplex edge.

(** The indices of the simplices are rows of [points]. *)
Definition in_range points simplices : Prop :=
  Forall (Forall (λ i, i < length points)) simplices.

(** What the builder expects of the provider: every simplex lists
    distinct vertices, each of them a row of [points].  (In 2-D a
    simplex has three vertices; nothing below depends on that.) *)
Definition valid_triangulation points simplices : Prop :=
  Forall (λ s : Simplex, NoDup s ∧ Forall (λ i, i < length points) s) simplices.

(** [{a, b}] is an edge of some simplex. *)
Definition delaunay_edge simplices a b : Prop :=
  ∃ s, s ∈ simplices ∧ a ∈ s ∧ b ∈ s.

(** In every simplex with the edge [{a, b}], no remaining vertex is
    reported strictly inside the circle of diameter [ab]. *)
Definition empty_circle points simplices a b : Prop :=
  ∀ s c pa pb pc,
    s ∈ simplices → a ∈ s → b ∈ s → c ∈ s → c ≠ a → c ≠ b →
    points !! a = Some pa → points !! b = Some pb → points !! c = Some pc →
    _inside_midpoint_circle pa pb pc = false.

(** The loop state [st'] extends [st] by the edges in [C] and the
    removed edges in [D]. *)
Definition extends (st st' : list Edge * list Edge) (C D : Edge → Prop) : Prop :=
  (∀ e, e ∈ st'.1 ↔ e ∈ st.1 ∨ C e) ∧ (∀ e, e ∈ st'.2 ↔ e ∈ st.2 ∨ D e).

(** A weaker account of a loop step: [st'] has the removed edges of [st]
    and those in [D], and the edges seen so far, kept or removed, are
    those of [st] and those in [C]. *)
Definition tracks (st st' : list Edge * list Edge) (C D : Edge → Prop) : Prop :=
  (∀ e, e ∈ st'.1 ∨ e ∈ st'.2 ↔ (e ∈ st.1 ∨ e ∈ st.2) ∨ C e) ∧
  (∀ e, e ∈ st'.2 ↔ e ∈ st.2 ∨ D e).

(** *** The filter as the design document words it

    Step 3 of the documented algorithm visits an edge only when it is
    "not already marked removed".  The three definitions below follow
    that wording: the guard is a membership test of the unordered edge in
    the removed edges.  They are compared with the code further down. *)
Definition documented_edge_step points simplex
    (st : list Edge * list Edge) edge : result (list Edge * list Edge) :=
  let '(edges, removed_edges) := st in
  if bool_decide (frozenset edge ∈ removed_edges) then Ok (edges, removed_edges)
  else
    let edges := edges ++ [frozenset edge] in
    match getitem points edge.1 with
    | Raise e => Raise e
    | Ok edge_point_x =>
        match getitem points edge.2 with
        | Raise e => Raise e
        | Ok edge_point_y =>
            match foldM (neighbor_step points edge edge_point_x edge_point_y)
                        removed_edges (neighbors simplex edge) with
            | Raise e => Raise e
            | Ok removed_edges => Ok (edges, removed_edges)
            end
        end
    end.

Definition documented_simplex_step points
    (st : list Edge * list Edge) simplex : result (list Edge * list Edge) :=
  foldM (documented_edge_step points simplex) st (combinations2 simplex).

Definition documented_filter points simplices : result (gset Edge) :=
  match foldM (documented_simplex_step points) ([], []) simplices with
  | Raise e => Raise e
  | Ok (edges, removed_edges) =>
      Ok ((list_to_set edges : gset Edge) ∖ list_to_set removed_edges)
  end.
End Vocabulary.

(** ** Object states *)

Section ObjectStates.
Context {A : Type} {Callable : Type}.
Implicit Types (self : GraphTools A Callable) (pts : list (Point A)).
Implicit Types (m : option Callable).

(** [self] with [self.points = pts] assigned. *)
Definition with_points pts self : GraphTools A Callable :=
  {| points := Some pts; triangulation := triangulation self;
     simplices := simplices self; gabriel_edges := gabriel_edges self;
     metric := metric self |}.

(** The object after a run of [__init__(pts, m)] that returned. *)
Definition rebuilt pts (tri : Delaunay.t) (E : gset Edge) m : GraphTools A Callable :=
  {| points := Some pts; triangulation := Some tri;
     simplices := Some (Delaunay.simplices tri); gabriel_edges := Some E;
     metric := Some m |}.

(** The object made by [GraphTools(None, m)]: only [metric] is assigned. *)
Definition without_points m : GraphTools A Callable :=
  {| points := None; triangulation := None; simplices := None;
     gabriel_edges := None; metric := Some m |}.
End ObjectStates.

Arguments without_points {A Callable}.

(** ** The triangulation provider: its contract, and a stand-in *)

Section ProviderContract.
Context {A : Type} `{Dtype A}.
Implicit Types (p q r : Point A) (pts : list (Point A)).

(** Twice the signed area of the triangle [p q r] of 2-D points. *)
Definition cross p q r : option A :=
  match p, q, r with
  | [p1; p2], [q1; q2], [r1; r2] =>
      Some (d_sub (d_mul (d_sub q1 p1) (d_sub r2 p2)) (d_mul (d_sub q2 p2) (d_sub r1 p1)))
  | _, _, _ => None
  end.

Definition collinear3 p q r : Prop := cross p q r = Some d_zero.

(** A proper triangle: three 2-D points that are not collinear. *)
Definition triangle p q r : Prop := ∃ d, cross p q r = Some d ∧ d ≠ d_zero.

Definition collinear pts : Prop :=
  Forall (λ p, Forall (λ q, Forall (λ r, collinear3 p q r) pts) pts) pts.

(** The inputs that cannot support a triangulation: fewer than three
    points, or all points on one line. *)
Definition degenerate pts : Prop := length pts < 3 ∨ collinear pts.


(** The provider triangulates three non-collinear points by the single
    simplex on the three indices, in some order. *)
Definition triangulates_triangle (Delaunay : list (Point A) → result Delaunay.t) : Prop :=
  ∀ p q r, triangle p q r →
    ∃ s, Delaunay [p; q; r] = Ok (Delaunay.mk [s]) ∧ s ≡ₚ [0; 1; 2].

Context `{EqDecision A}.

#[global] Instance collinear3_dec p q r : Decision (collinear3 p q r).
Proof. unfold collinear3. apply _. Defined.

#[global] Instance degenerate_dec pts : Decision (degenerate pts).
Proof. unfold degenerate, collinear. apply _. Defined.

(** A stand-in provider, enough to run the object protocol: it rejects
    degenerate input, triangulates three points, and gives up on
    anything larger. *)
Definition stub_Delaunay pts : result Delaunay.t :=
  if decide (degenerate pts) then Raise DegenerateInputError
  else match pts with
       | [_; _; _] => Ok (Delaunay.mk [[0; 1; 2]])
       | _ => Raise (ProviderError 0)
       end.
End ProviderContract.

(** ** Plane geometry as the array computes it *)

(** [np.sum(np.power(a - b, 2))] on two rows of a 2-D array, written
    out: the sum starts from zero and adds the squares from left to
    right, each operation in the arithmetic of the dtype. *)
Definition computed_sq2 {A : Type} `{Dtype A} (a1 a2 b1 b2 : A) : A :=
  d_add (d_add d_zero (d_mul (d_sub a1 b1) (d_sub a1 b1)))
        (d_mul (d_sub a2 b2) (d_sub a2 b2)).

(** The value of a finite [float64], exactly: the pair [(m, e)] stands
    for [m * 2^e]. *)
Definition binary64_value (f : float) : option (Z * Z) :=
  match Prim2SF f with
  | S754_zero _ => Some (0, 0)%Z
  | S754_finite s m e => Some (cond_Zopp s (Z.pos m), e)
  | _ => None
  end.

(** [x] is not below zero: NaN, a zero of either sign, plus infinity or
    a positive number. *)
Definition SFnonneg (x : spec_float) : bool := negb (SFltb x (S754_zero false)).

(** [p] is on the circle with diameter [xy]: the two sides of the
    comparison made by [_inside_midpoint_circle] are equal. *)
Definition on_diametral_circle (x y p : Point Z) : Prop :=
  sq_dist x y = (sq_dist x p + sq_dist y p)%Z.

(** The three sides of the triangle on the indices 0, 1, 2. *)
Definition three_edges : gset Edge := {[ {[0; 1]}; {[0; 2]}; {[1; 2]} ]}.

(** ** Sample inputs *)

(** The unit square, as an integer array. *)
Definition square : list (Point Z) := [[0; 0]; [1; 0]; [1; 1]; [0; 1]]%Z.

(** The two triangulations of the square, one per diagonal. *)
Definition square_tri_02 : Delaunay.t := Delaunay.mk [[0; 1; 2]; [0; 2; 3]].
Definition square_tri_13 : Delaunay.t := Delaunay.mk [[0; 1; 3]; [1; 2; 3]].

(** A right triangle, an obtuse triangle (the angle at index 2 exceeds
    90 degrees), two points, and three points on a line. *)
Definition right_triangle : list (Point Z) := [[0; 0]; [4; 0]; [0; 3]]%Z.
Definition obtuse_triangle : list (Point Z) := [[0; 0]; [4; 0]; [2; 1]]%Z.
Definition two_points : list (Point Z) := [[0; 0]; [1; 0]]%Z.
Definition three_on_a_line : list (Point Z) := [[0; 0]; [1; 1]; [2; 2]]%Z.

(** [float64] inputs.  [0x1.999999999999ap-4] is the float that Python
    prints as 0.1, [0x1.999999999999ap-3] is 0.2, exactly twice as much;
    [0x1.0000000000001p-1] is 0.5000000000000001, the float after 0.5;
    [0x1.bb67ae8584cabp-1] is 0.8660254037844387. *)

(** The angle at row 0 is exactly 90 degrees. *)
Definition right_angle_f : list (Point float) :=
  [[0; 0]; [0x1.999999999999ap-4; 0x1.999999999999ap-3];
   [-0x1.999999999999ap-3; 0x1.999999999999ap-4]]%float.


(** The angle at row 0 is a little more than 90 degrees. *)
Definition barely_obtuse_f : list (Point float) :=
  [[0; 0]; [0.5; 0.5]; [-0x1.0000000000001p-1; 0.5]]%float.

(** The same three points in units of 2^-53. *)
Definition barely_obtuse_exact : list (Point Z) :=
  [[0; 0]; [4503599627370496; 4503599627370496];
   [-4503599627370497; 4503599627370496]]%Z.

Definition equal_sides_f : list (Point float) :=
  [[0; 0]; [1; 0]; [0.5; 0x1.bb67ae8584cabp-1]]%float.
Definition obtuse_f : list (Point float) := [[0; 0]; [4; 0]; [2; 1]]%float.

(** The callables accepted as [metric] on [float64] samples. *)
Definition metric_f : Type := Point float → Point float → float.

(** The callables accepted as [metric] in the samples. *)
Definition metric_fn : Type := Point Z → Point Z → Z.

(** An object holding the square and its triangulation along the
    diagonal 0-2, as [__init__] leaves it. *)
Definition square_object : GraphTools Z metric_fn :=
  rebuilt square square_tri_02 {[ {[0; 1]}; {[1; 2]}; {[0; 2]}; {[2; 3]}; {[0; 3]} ]} None.

(** The object [GraphTools(right_triangle)] under the stand-in provider. *)
Definition triangle_object : GraphTools Z metric_fn :=
  rebuilt right_triangle (Delaunay.mk [[0; 1; 2]]) three_edges None.

(** ** Further vocabulary and samples *)

(** The indices that the builder reads are rows of [points].  A simplex
    with fewer than two vertices has no edge, and none of its indices is
    ever read. *)
Definition touched_in_range {A : Type} (points : list (Point A))
    (simplices : list Simplex) : Prop :=
  Forall (λ s : Simplex, 2 ≤ length s → Forall (λ i, i < length points) s) simplices.

(** The object after a run of [__init__(pts, m)] on [self] in which the
    provider returned [tri] and the filter raised. *)
Definition half_rebuilt {A Callable : Type} (pts : list (Point A)) (tri : Delaunay.t)
    (self : GraphTools A Callable) : GraphTools A Callable :=
  {| points := Some pts; triangulation := Some tri;
     simplices := Some (Delaunay.simplices tri); gabriel_edges := gabriel_edges self;
     metric := metric self |}.

(** A provider that breaks its contract: it names a row that the array
    does not have. *)
Definition bad_Delaunay (pts : list (Point Z)) : result Delaunay.t :=
  Ok (Delaunay.mk [[0; 1; 5]]).

(** A [float64] that is [+0] or NaN. *)
Definition zero_or_nan (a : float) : Prop := a = 0%float ∨ a = nan.

(** A callable. *)
Definition constant_metric : metric_fn := λ _ _, 0%Z.

(** ** Basic facts: dtypes, results, combinations *)

#[global] Instance Z_dtype_sym : DtypeSym Z.
Proof. split; simpl; intros; lia. Qed.

#[global] Instance R_dtype_sym : DtypeSym R.
Proof. split; simpl; intros; lra. Qed.

Lemma Rgtb_true (a b : R) : Rgtb a b = true ↔ (b < a)%R.
Proof. unfold Rgtb. destruct (Rlt_dec b a); split; intros; congruence || done. Qed.

Lemma Rgtb_false (a b : R) : Rgtb a b = false ↔ (a <= b)%R.
Proof.
  unfold Rgtb. destruct (Rlt_dec b a); split; intros; try done; lra.
Qed.

#[global] Instance Z_dtype_order : DtypeOrder Z.
Proof. split; simpl; intros; lia. Qed.

#[global] Instance Z_dtype_nonneg : DtypeNonneg Z.
Proof. split; simpl; intros; nia. Qed.

#[global] Instance R_dtype_order : DtypeOrder R.
Proof. split; simpl; intros. apply Rgtb_false. lra. Qed.

#[global] Instance R_dtype_nonneg : DtypeNonneg R.
Proof.
  split; simpl.
  - intros a. apply Rgtb_false. nra.
  - intros a b Ha%Rgtb_false Hb%Rgtb_false. apply Rgtb_false. lra.
  - intros a Ha%Rgtb_false. apply Rgtb_false. lra.
Qed.

(** ** IEEE binary64 satisfies the laws

    The facts are proved on [SpecFloat], for any precision and exponent
    range, and carried to the primitive floats by their specification. *)

Section SpecFloatFacts.
Variables prec emax : Z.

Lemma SFltb_irrefl (x : spec_float) : SFltb x x = false.
Proof.
  unfold SFltb. destruct x as [s | s | | s m e]; simpl; try done; try by destruct s.
  destruct s; rewrite Z.compare_refl, Pos.compare_cont_refl; done.
Qed.

Lemma SFadd_comm (x y : spec_float) : SFadd prec emax x y = SFadd prec emax y x.
Proof.
  destruct x as [sx | sx | | sx mx ex], y as [sy | sy | | sy my ey]; simpl;
    try done; try by destruct sx, sy.
  by rewrite Z.min_comm, Z.add_comm.
Qed.

(** Rounding does not look at the sign. *)
Lemma binary_round_aux_opp s m e l :
  binary_round_aux prec emax (negb s) m e l = SFopp (binary_round_aux prec emax s m e l).
Proof.
  unfold binary_round_aux.
  destruct (shr_fexp prec emax m e l) as [mrs' e'].
  destruct (shr_fexp prec emax _ e' loc_Exact) as [mrs'' e''].
  destruct (shr_m mrs''); [done | | done].
  by destruct (e'' <=? emax - prec)%Z.
Qed.

Lemma binary_round_opp s m e :
  binary_round prec emax (negb s) m e = SFopp (binary_round prec emax s m e).
Proof.
  unfold binary_round. destruct (shl_align _ _ _) as [mz ez]. apply binary_round_aux_opp.
Qed.

Lemma binary_normalize_opp (m e : Z) :
  binary_normalize prec emax (- m) e false
  = match m with
    | Z0 => S754_zero false
    | _ => SFopp (binary_normalize prec emax m e false)
    end.
Proof.
  destruct m as [| p | p]; simpl; [done | |].
  - apply (binary_round_opp false).
  - apply (binary_round_opp true).
Qed.

Lemma SFmul_opp_opp (u : spec_float) :
  SFmul prec emax (SFopp u) (SFopp u) = SFmul prec emax u u.
Proof. destruct u as [s | s | | s m e]; simpl; try done; by destruct s. Qed.

(** [y - x] is the opposite of [x - y], except that both are [+0] when
    the difference is zero, and both NaN when it is undefined. *)
Lemma SFsub_swap (x y : spec_float) :
  SFsub prec emax y x = SFopp (SFsub prec emax x y) ∨
  SFsub prec emax y x = SFsub prec emax x y.
Proof.
  destruct x as [sx | sx | | sx mx ex], y as [sy | sy | | sy my ey]; simpl;
    try (by right); try (by left); try (by destruct sx, sy; (by left) || (by right)).
  all: try (left; by rewrite negb_involutive).
  all: try (left; by destruct sx, sy).
  rewrite (Z.min_comm ey ex).
  set (a := cond_Zopp sx _). set (b := cond_Zopp sy _).
  replace (b - a)%Z with (- (a - b))%Z by lia.
  rewrite binary_normalize_opp.
  destruct (a - b)%Z eqn:Hab; [by right | by left | by left].
Qed.

Lemma SFmul_sub_sym (x y : spec_float) :
  SFmul prec emax (SFsub prec emax x y) (SFsub prec emax x y)
  = SFmul prec emax (SFsub prec emax y x) (SFsub prec emax y x).
Proof.
  destruct (SFsub_swap x y) as [-> | ->]; [| done]. by rewrite SFmul_opp_opp.
Qed.

Lemma SFnonneg_cases (x : spec_float) :
  SFnonneg x = true →
  x = S754_nan ∨ (∃ s, x = S754_zero s) ∨ x = S754_infinity false ∨
  ∃ m e, x = S754_finite false m e.
Proof.
  destruct x as [s | [|] | | [|] m e]; try done.
  - right; left. by exists s.
  - by right; right; left.
  - by left.
  - right; right; right. by exists m, e.
Qed.

Lemma binary_round_aux_nonneg m e l :
  SFnonneg (binary_round_aux prec emax false m e l) = true.
Proof.
  unfold binary_round_aux.
  destruct (shr_fexp prec emax m e l) as [mrs' e'].
  destruct (shr_fexp prec emax _ e' loc_Exact) as [mrs'' e''].
  destruct (shr_m mrs''); [done | | done].
  by destruct (e'' <=? emax - prec)%Z.
Qed.

Lemma SFmul_self_nonneg (u : spec_float) : SFnonneg (SFmul prec emax u u) = true.
Proof.
  destruct u as [s | s | | s m e]; simpl; try done; try by destruct s.
  rewrite xorb_nilpotent. apply binary_round_aux_nonneg.
Qed.

Lemma SFadd_nonneg (x y : spec_float) :
  SFnonneg x = true → SFnonneg y = true → SFnonneg (SFadd prec emax x y) = true.
Proof.
  intros [-> | [[sx ->] | [-> | (mx & ex & ->)]]]%SFnonneg_cases
         [-> | [[sy ->] | [-> | (my & ey & ->)]]]%SFnonneg_cases; simpl; try done;
    try by destruct sx; try destruct sy.
  unfold binary_round. destruct (shl_align _ _ _). apply binary_round_aux_nonneg.
Qed.

(** Doubling a positive float: the mantissa doubles when the float is
    subnormal, otherwise the exponent goes up by one, or the result is
    infinity.  Nothing is rounded. *)
Lemma SFadd_self_finite m e :
  SpecFloat.valid_binary prec emax (S754_finite false m e) = true →
  SFadd prec emax (S754_finite false m e) (S754_finite false m e)
  = (if (fexp prec emax (Z.pos (digits2_pos m) + 1 + e) =? e)%Z
     then S754_finite false (m~0) e
     else if (e + 1 <=? emax - prec)%Z then S754_finite false m (e + 1)
          else S754_infinity false).
Proof.
  simpl. unfold bounded, canonical_mantissa.
  intros [Hcan Hle]%andb_prop. apply Z.eqb_eq in Hcan. apply Z.leb_le in Hle.
  rewrite Z.min_id. unfold shl_align at 1 2. rewrite Z.sub_diag. simpl.
  rewrite Pos.add_diag. unfold binary_round.
  change (digits2_pos m~0) with (Pos.succ (digits2_pos m)).
  rewrite Pos2Z.inj_succ.
  set (d := Z.pos (digits2_pos m)) in *.
  assert (Hf : fexp prec emax (Z.succ d + e) = e ∨ fexp prec emax (Z.succ d + e) = (e + 1)%Z).
  { unfold fexp in *. lia. }
  replace (d + 1 + e)%Z with (Z.succ d + e)%Z by lia.
  unfold shl_align.
  destruct Hf as [Hf | Hf]; rewrite Hf.
  - rewrite Z.sub_diag, Z.eqb_refl. unfold binary_round_aux, shr_fexp.
    change (Zdigits2 (Z.pos m~0)) with (Z.pos (Pos.succ (digits2_pos m))).
    rewrite Pos2Z.inj_succ. fold d. rewrite Hf, Z.sub_diag. simpl.
    rewrite Pos2Z.inj_succ. fold d. rewrite Hf, Z.sub_diag. simpl.
    by rewrite (proj2 (Z.leb_le _ _) Hle).
  - replace (e + 1 - e)%Z with 1%Z by lia.
    replace (e + 1 =? e)%Z with false by (symmetry; apply Z.eqb_neq; lia).
    unfold binary_round_aux, shr_fexp.
    change (Zdigits2 (Z.pos m~0)) with (Z.pos (Pos.succ (digits2_pos m))).
    rewrite Pos2Z.inj_succ. fold d. rewrite Hf.
    replace (e + 1 - e)%Z with 1%Z by lia. simpl.
    fold d. replace (d + (e + 1))%Z with (Z.succ d + e)%Z by lia.
    rewrite Hf, Z.sub_diag. simpl. done.
Qed.

Lemma SFadd_self_not_below (x : spec_float) :
  SpecFloat.valid_binary prec emax x = true → SFnonneg x = true →
  SFltb (SFadd prec emax x x) x = false.
Proof.
  intros Hv [-> | [[sx ->] | [-> | (m & e & ->)]]]%SFnonneg_cases; try done.
  - by destruct sx.
  - rewrite (SFadd_self_finite m e Hv).
    destruct (_ =? e)%Z.
    + unfold SFltb. simpl. rewrite Z.compare_refl.
      replace (Pos.compare_cont Eq m~0 m) with Gt; [done |].
      symmetry. apply Pos.compare_gt_iff. lia.
    + destruct (e + 1 <=? emax - prec)%Z; [| done].
      unfold SFltb. simpl. replace (e + 1 ?= e)%Z with Gt; [done |].
      symmetry. apply Z.compare_gt_iff. lia.
Qed.
End SpecFloatFacts.

Lemma Prim2SF_eq (a b : float) : Prim2SF a = Prim2SF b → a = b.
Proof. intros Hab. by rewrite <- (SF2Prim_Prim2SF a), <- (SF2Prim_Prim2SF b), Hab. Qed.

Lemma float_nonneg (a : float) : (a <? 0)%float = false ↔ SFnonneg (Prim2SF a) = true.
Proof.
  rewrite ltb_spec. unfold SFnonneg. change (Prim2SF 0) with (S754_zero false).
  by destruct (SFltb _ _).
Qed.

#[global] Instance float64_dtype_sym : DtypeSym float.
Proof.
  split; simpl; intros a b; apply Prim2SF_eq.
  - rewrite !mul_spec, !sub_spec. apply SFmul_sub_sym.
  - rewrite !add_spec. apply SFadd_comm.
Qed.

#[global] Instance float64_dtype_order : DtypeOrder float.
Proof. split; simpl; intros a. rewrite ltb_spec. apply SFltb_irrefl. Qed.

#[global] Instance float64_dtype_nonneg : DtypeNonneg float.
Proof.
  split; simpl.
  - intros a. apply float_nonneg. rewrite mul_spec. apply SFmul_self_nonneg.
  - intros a b. rewrite !float_nonneg, add_spec. apply SFadd_nonneg.
  - intros a. rewrite float_nonneg, ltb_spec, add_spec.
    apply SFadd_self_not_below, Prim2SF_valid.
Qed.

Lemma elem_of_combinations2_cons {X} (a b x : X) (t : list X) :
  (a, b) ∈ combinations2 (x :: t) ↔ (a = x ∧ b ∈ t) ∨ (a, b) ∈ combinations2 t.
Proof.
  simpl. rewrite elem_of_app, list_elem_of_fmap. split.
  - intros [(y & Heq & Hy) | ?]; [left | by right]. by simplify_eq.
  - intros [[-> Hb] | ?]; [left | by right]. by exists b.
Qed.

Lemma elem_of_combinations2 {X} (a b : X) (l : list X) :
  (a, b) ∈ combinations2 l → a ∈ l ∧ b ∈ l.
Proof.
  induction l as [| x t IH]; [by intros ?%elem_of_nil |].
  rewrite elem_of_combinations2_cons. intros [[-> Hb] | Hab].
  - split; [left | by right].
  - destruct (IH Hab). split; by right.
Qed.

Lemma combinations2_NoDup_ne {X} (a b : X) (l : list X) :
  NoDup l → (a, b) ∈ combinations2 l → a ≠ b.
Proof.
  induction 1 as [| x t Hx Hnd IH]; [by intros ?%elem_of_nil |].
  rewrite elem_of_combinations2_cons. intros [[-> Hb] | Hab]; [| by apply IH].
  intros ->. done.
Qed.

Lemma combinations2_complete {X} (a b : X) (l : list X) :
  a ∈ l → b ∈ l → a ≠ b → (a, b) ∈ combinations2 l ∨ (b, a) ∈ combinations2 l.
Proof.
  induction l as [| x t IH]; [by intros ?%elem_of_nil |].
  rewrite !elem_of_cons, !elem_of_combinations2_cons.
  intros [-> | Ha] [-> | Hb] Hne; try done.
  - left. by left.
  - right. by left.
  - destruct (IH Ha Hb Hne); [left | right]; by right.
Qed.

Lemma frozenset_swap (a b : nat) : frozenset (a, b) = frozenset (b, a).
Proof. unfold frozenset. simpl. set_solver. Qed.

Lemma frozenset_inj (a b c d : nat) :
  frozenset (a, b) = frozenset (c, d) → (a = c ∧ b = d) ∨ (a = d ∧ b = c).
Proof.
  unfold frozenset. simpl. intros Heq.
  assert (Ha : a ∈ ({[c; d]} : gset nat)) by (rewrite <- Heq; set_solver).
  assert (Hb : b ∈ ({[c; d]} : gset nat)) by (rewrite <- Heq; set_solver).
  assert (Hc : c ∈ ({[a; b]} : gset nat)) by (rewrite Heq; set_solver).
  assert (Hd : d ∈ ({[a; b]} : gset nat)) by (rewrite Heq; set_solver).
  set_unfold. destruct (decide (a = c)); naive_solver.
Qed.

Lemma tuple_in_false (edge : nat * nat) (removed_edges : list Edge) :
  tuple_in edge removed_edges = false.
Proof. unfold tuple_in. induction removed_edges; simpl; auto. Qed.

Lemma elem_of_neighbors (simplex : Simplex) (edge : nat * nat) (c : nat) :
  c ∈ neighbors simplex edge ↔ c ∈ simplex ∧ c ≠ edge.1 ∧ c ≠ edge.2.
Proof. unfold neighbors. rewrite elem_of_elements. set_solver. Qed.

Lemma getitem_Ok {X} (points : list X) (i : nat) (p : X) :
  getitem points i = Ok p ↔ points !! i = Some p.
Proof. unfold getitem. destruct (points !! i); naive_solver. Qed.

Lemma getitem_lt {X} (points : list X) (i : nat) :
  i < length points → ∃ p, points !! i = Some p ∧ getitem points i = Ok p.
Proof.
  intros [p Hp]%lookup_lt_is_Some. exists p. split; [done |]. by apply getitem_Ok.
Qed.

(** ** The kernel is symmetric in the two endpoints *)

Section KernelFacts.
Context {A : Type} `{DtypeSym A}.

Lemma np_power2_sub_sym (x y : Point A) :
  np_power2 (np_sub x y) = np_power2 (np_sub y x).
Proof.
  unfold np_power2, np_sub. revert y.
  induction x as [| a x IH]; intros [| b y]; simpl; try done.
  by rewrite d_sq_sub_sym, IH.
Qed.

Lemma sq_dist_sym (x y : Point A) : sq_dist x y = sq_dist y x.
Proof. unfold sq_dist. by rewrite np_power2_sub_sym. Qed.

Lemma inside_midpoint_circle_sym (x y p : Point A) :
  _inside_midpoint_circle x y p = _inside_midpoint_circle y x p.
Proof.
  unfold _inside_midpoint_circle. simpl.
  by rewrite (sq_dist_sym x y), d_add_comm.
Qed.
End KernelFacts.

(** ** What the loops of the builder accumulate *)

Section Loops.
Context {A : Type} `{Dtype A}.
Implicit Types (points : list (Point A)) (simplex : Simplex) (edge : nat * nat).

Lemma foldM_extends {X} (f : list Edge * list Edge → X → result (list Edge * list Edge))
    (C D : X → Edge → Prop) (l : list X) :
  (∀ st x, x ∈ l → ∃ st', f st x = Ok st' ∧ extends st st' (C x) (D x)) →
  ∀ st, ∃ st', foldM f st l = Ok st' ∧
    extends st st' (λ e, ∃ x, x ∈ l ∧ C x e) (λ e, ∃ x, x ∈ l ∧ D x e).
Proof.
  induction l as [| x t IH]; intros Hf st; simpl.
  - exists st. split; [done |]. split; intros e; set_solver.
  - destruct (Hf st x) as (st1 & -> & [HC HD]); [left |].
    destruct (IH (λ st y Hy, Hf st y (list_elem_of_further _ _ _ Hy)) st1)
      as (st2 & -> & [HC2 HD2]).
    exists st2. split; [done |]. split; intros e.
    + rewrite HC2, HC. set_solver.
    + rewrite HD2, HD. set_solver.
Qed.

Lemma foldM_neighbor_step points edge px py (cs : list nat) :
  Forall (λ i, i < length points) cs →
  ∀ removed_edges, ∃ removed_edges',
    foldM (neighbor_step points edge px py) removed_edges cs = Ok removed_edges' ∧
    ∀ e, e ∈ removed_edges' ↔
         e ∈ removed_edges ∨
         (e = frozenset edge ∧
          ∃ c pc, c ∈ cs ∧ points !! c = Some pc ∧ _inside_midpoint_circle px py pc = true).
Proof.
  induction 1 as [| c cs Hc Hcs IH]; intros R; simpl.
  - exists R. split; [done |]. intros e. set_solver.
  - unfold neighbor_step at 1.
    destruct (getitem_lt points c Hc) as (pc & Hpc & ->).
    destruct (_inside_midpoint_circle px py pc) eqn:Hin.
    + destruct (IH (R ++ [frozenset edge])) as (R' & -> & HR').
      exists R'. split; [done |]. intros e. rewrite HR', elem_of_app, list_elem_of_singleton.
      split.
      * intros [[? | ->] | (-> & c' & pc' & ? & ? & ?)]; [by left | right .. ].
        -- split; [done |]. exists c, pc. split; [left | done].
        -- split; [done |]. exists c', pc'. split; [by right | done].
      * intros [? | (-> & c' & pc' & Hc' & ? & ?)]; [by left; left |].
        left. by right.
    + destruct (IH R) as (R' & -> & HR').
      exists R'. split; [done |]. intros e. rewrite HR'. split.
      * intros [? | (-> & c' & pc' & ? & ? & ?)]; [by left | right].
        split; [done |]. exists c', pc'. split; [by right | done].
      * intros [? | (-> & c' & pc' & Hc' & Hl & Hi)]; [by left |].
        apply elem_of_cons in Hc' as [-> | Hc'].
        -- rewrite Hpc in Hl. simplify_eq. congruence.
        -- right. split; [done |]. by exists c', pc'.
Qed.

Lemma edge_step_extends points simplex edge st :
  Forall (λ i, i < length points) simplex →
  edge ∈ combinations2 simplex →
  ∃ st', edge_step points simplex st edge = Ok st' ∧
    extends st st' (λ e, e = frozenset edge)
                   (λ e, e = frozenset edge ∧ violates points simplex edge).
Proof.
  intros Hr Hedge.
  assert (edge.1 ∈ simplex ∧ edge.2 ∈ simplex) as [Ha Hb].
  { apply elem_of_combinations2. by destruct edge. }
  rewrite Forall_forall in Hr.
  destruct st as [E R]. unfold edge_step. rewrite tuple_in_false. simpl.
  destruct (getitem_lt points edge.1 (Hr _ Ha)) as (px & Hpx & ->).
  destruct (getitem_lt points edge.2 (Hr _ Hb)) as (py & Hpy & ->).
  destruct (foldM_neighbor_step points edge px py (neighbors simplex edge)) with (removed_edges := R)
    as (R' & -> & HR').
  { apply Forall_forall. intros c [Hc _]%elem_of_neighbors. by apply Hr. }
  exists (E ++ [frozenset edge], R'). split; [done |]. split; intros e; simpl.
  - rewrite elem_of_app, list_elem_of_singleton. done.
  - rewrite HR'. split.
    + intros [? | (-> & c & pc & (Hc & ? & ?)%elem_of_neighbors & ? & ?)]; [by left | right].
      split; [done |]. by exists c, px, py, pc.
    + intros [? | (-> & c & px' & py' & pc & ? & ? & ? & ? & ? & ? & ?)]; [by left | right].
      split; [done |]. exists c, pc. simplify_eq.
      split; [by apply elem_of_neighbors | done].
Qed.

Lemma simplex_step_extends points simplex st :
  Forall (λ i, i < length points) simplex →
  ∃ st', simplex_step points st simplex = Ok st' ∧
    extends st st'
      (λ e, ∃ edge, edge ∈ combinations2 simplex ∧ e = frozenset edge)
      (λ e, ∃ edge, edge ∈ combinations2 simplex ∧ e = frozenset edge ∧
                    violates points simplex edge).
Proof.
  intros Hr. unfold simplex_step.
  apply (foldM_extends (edge_step points simplex)
           (λ edge e, e = frozenset edge)
           (λ edge e, e = frozenset edge ∧ violates points simplex edge)).
  intros st0 edge Hedge. by apply edge_step_extends.
Qed.

(** The two loops run to completion on indices in range, and the
    returned set is the candidates that were never marked removed. *)
Lemma gabriel_filter_returns points (simplices : list Simplex) :
  in_range points simplices →
  ∃ E, gabriel_filter points simplices = Ok E ∧
       ∀ e, e ∈ E ↔ candidate simplices e ∧ ¬ removed points simplices e.
Proof.
  intros Hr. unfold gabriel_filter.
  destruct (foldM_extends (simplex_step points)
              (λ simplex e, ∃ edge, edge ∈ combinations2 simplex ∧ e = frozenset edge)
              (λ simplex e, ∃ edge, edge ∈ combinations2 simplex ∧ e = frozenset edge ∧
                                    violates points simplex edge)
              simplices) with (st := ([], []) : list Edge * list Edge)
    as ([E R] & -> & [HE HR]).
  { intros st simplex Hs. apply simplex_step_extends.
    unfold in_range in Hr. rewrite Forall_forall in Hr. by apply Hr. }
  eexists. split; [done |]. intros e.
  rewrite elem_of_difference, !elem_of_list_to_set. simpl in HE, HR.
  rewrite HE, HR. unfold candidate, removed. split.
  - intros [[?%elem_of_nil | (s & Hs & edge & ? & ?)] Hn]; [done |]. split.
    + by exists s, edge.
    + intros (s' & edge' & ? & ? & ? & ?). apply Hn. right. exists s'. split; [done |].
      by exists edge'.
  - intros [(s & edge & ? & ? & ?) Hn]. split.
    + right. exists s. split; [done |]. by exists edge.
    + intros [?%elem_of_nil | (s' & ? & edge' & ? & ? & ?)]; [done |].
      apply Hn. by exists s', edge'.
Qed.
(** *** The documented guard makes no difference

    The code tests [edge not in removed_edges] with a tuple against
    frozensets, which never skips an edge; the documented algorithm skips
    an edge that is already marked removed.  Both return the same set:
    a skipped edge is in the removed edges, so it is taken out by the
    final difference either way. *)

Lemma extends_tracks (st st' : list Edge * list Edge) (C D : Edge → Prop) :
  (∀ e, D e → C e) → extends st st' C D → tracks st st' C D.
Proof.
  intros HDC [HE HR]. split; [| done]. intros e. rewrite HE, HR. naive_solver.
Qed.

Lemma foldM_tracks {X} (f : list Edge * list Edge → X → result (list Edge * list Edge))
    (C D : X → Edge → Prop) (l : list X) :
  (∀ st x, x ∈ l → ∃ st', f st x = Ok st' ∧ tracks st st' (C x) (D x)) →
  ∀ st, ∃ st', foldM f st l = Ok st' ∧
    tracks st st' (λ e, ∃ x, x ∈ l ∧ C x e) (λ e, ∃ x, x ∈ l ∧ D x e).
Proof.
  induction l as [| x t IH]; intros Hf st; simpl.
  - exists st. split; [done |]. split; intros e; set_solver.
  - destruct (Hf st x) as (st1 & -> & [HC HD]); [left |].
    destruct (IH (λ st y Hy, Hf st y (list_elem_of_further _ _ _ Hy)) st1)
      as (st2 & -> & [HC2 HD2]).
    exists st2. split; [done |]. split; intros e.
    + rewrite HC2, HC. set_solver.
    + rewrite HD2, HD. set_solver.
Qed.

Lemma documented_edge_step_tracks points simplex edge st :
  Forall (λ i, i < length points) simplex →
  edge ∈ combinations2 simplex →
  ∃ st', documented_edge_step points simplex st edge = Ok st' ∧
    tracks st st' (λ e, e = frozenset edge)
                  (λ e, e = frozenset edge ∧ violates points simplex edge).
Proof.
  intros Hr Hedge. destruct st as [E R]. unfold documented_edge_step.
  case_bool_decide as Hmem.
  - exists (E, R). split; [done |]. split; intros e; simpl; naive_solver.
  - destruct (edge_step_extends points simplex edge (E, R) Hr Hedge) as (st' & Hst & Hext).
    unfold edge_step in Hst. rewrite tuple_in_false in Hst. simpl in Hst.
    exists st'. split; [exact Hst |]. apply extends_tracks; [naive_solver | done].
Qed.

Lemma documented_filter_returns points (simplices : list Simplex) :
  in_range points simplices →
  ∃ E, documented_filter points simplices = Ok E ∧
       ∀ e, e ∈ E ↔ candidate simplices e ∧ ¬ removed points simplices e.
Proof.
  intros Hr. unfold documented_filter.
  destruct (foldM_tracks (documented_simplex_step points)
              (λ simplex e, ∃ edge, edge ∈ combinations2 simplex ∧ e = frozenset edge)
              (λ simplex e, ∃ edge, edge ∈ combinations2 simplex ∧ e = frozenset edge ∧
                                    violates points simplex edge)
              simplices) with (st := ([], []) : list Edge * list Edge)
    as ([E R] & -> & [HU HR]).
  { intros st simplex Hs. unfold documented_simplex_step.
    apply (foldM_tracks (documented_edge_step points simplex)
             (λ edge e, e = frozenset edge)
             (λ edge e, e = frozenset edge ∧ violates points simplex edge)).
    intros st0 edge Hedge. apply documented_edge_step_tracks; [| done].
    unfold in_range in Hr. rewrite Forall_forall in Hr. by apply Hr. }
  eexists. split; [done |]. intros e.
  rewrite elem_of_difference, !elem_of_list_to_set. simpl in HU, HR.
  specialize (HU e). specialize (HR e). unfold candidate, removed. split.
  - intros [HE HnR].
    destruct (proj1 HU (or_introl HE)) as [[?%elem_of_nil | ?%elem_of_nil] | (s & Hs & edge & ? & ?)];
      try done.
    split; [by exists s, edge |].
    intros (s' & edge' & ? & ? & ? & ?). apply HnR, HR. right.
    exists s'. split; [done |]. by exists edge'.
  - intros [(s & edge & ? & ? & ?) Hn].
    assert (HnR : e ∉ R).
    { intros [?%elem_of_nil | (s' & ? & edge' & ? & ? & ?)]%HR; [done |].
      apply Hn. by exists s', edge'. }
    split; [| done].
    destruct (proj2 HU) as [? | ?]; [| done | done].
    right. exists s. split; [done |]. by exists edge.
Qed.

(** X6: the filter with the guard as the design document words it, which
    skips an edge already marked removed, returns the same set as the
    code, whose guard never skips. *)
Lemma documented_filter_agrees points (simplices : list Simplex) :
  in_range points simplices →
  documented_filter points simplices = gabriel_filter points simplices.
Proof.
  intros Hr.
  destruct (documented_filter_returns _ _ Hr) as (E1 & -> & H1).
  destruct (gabriel_filter_returns _ _ Hr) as (E2 & -> & H2).
  f_equal. apply set_eq. intros e. by rewrite H1, H2.
Qed.
End Loops.

(** ** Running the methods *)

Section ObjectFacts.
Context {A : Type} `{Dtype A} {Callable : Type}.
Variable Delaunay : list (Point A) → result Delaunay.t.
Implicit Types (self : GraphTools A Callable) (pts : list (Point A)).
Implicit Types (m : option Callable).

Lemma gabriel_graph_private_run pts self tri :
  triangulation self = Some tri →
  _gabriel_graph (Some pts) self = (gabriel_filter pts (Delaunay.simplices tri), self).
Proof.
  intros Htri. unfold _gabriel_graph, mbind, M_bind, bind, getattr, lift.
  by rewrite Htri.
Qed.

Lemma init_ok pts m self tri E :
  Delaunay pts = Ok tri →
  gabriel_filter pts (Delaunay.simplices tri) = Ok E →
  __init__ Delaunay (Some pts) m self = (Ok (), rebuilt pts tri E m).
Proof.
  intros HD HE.
  unfold __init__, _delaunay_triangulation, _gabriel_graph,
    mbind, M_bind, bind, getattr, lift, set_points, set_triangulation,
    set_simplices, set_gabriel_edges, set_metric.
  simpl. rewrite HD. simpl. by rewrite HE.
Qed.

Lemma init_provider_raises pts m self e :
  Delaunay pts = Raise e →
  __init__ Delaunay (Some pts) m self = (Raise e, with_points pts self).
Proof.
  intros HD.
  unfold __init__, _delaunay_triangulation, mbind, M_bind, bind, lift, set_points.
  simpl. by rewrite HD.
Qed.

Lemma init_None m self :
  __init__ Delaunay None m self =
    (Ok (), {| points := points self; triangulation := triangulation self;
               simplices := simplices self; gabriel_edges := gabriel_edges self;
               metric := Some m |}).
Proof. done. Qed.

Lemma gabriel_graph_ok pts self tri E :
  Delaunay pts = Ok tri →
  gabriel_filter pts (Delaunay.simplices tri) = Ok E →
  gabriel_graph Delaunay (Some pts) self = (Ok E, rebuilt pts tri E None).
Proof.
  intros HD HE. unfold gabriel_graph, mbind, M_bind, bind.
  by rewrite (init_ok pts None self tri E).
Qed.

Lemma gabriel_graph_provider_raises pts self e :
  Delaunay pts = Raise e →
  gabriel_graph Delaunay (Some pts) self = (Raise e, with_points pts self).
Proof.
  intros HD. unfold gabriel_graph, mbind, M_bind, bind.
  by rewrite (init_provider_raises pts None self e).
Qed.


Lemma new_ok pts m tri E :
  Delaunay pts = Ok tri →
  gabriel_filter pts (Delaunay.simplices tri) = Ok E →
  new Delaunay (Some pts) m = Ok (rebuilt pts tri E m).
Proof. intros HD HE. unfold new. by rewrite (init_ok pts m fresh tri E). Qed.

Lemma new_provider_raises pts m e :
  Delaunay pts = Raise e → new Delaunay (Some pts) m = Raise e.
Proof. intros HD. unfold new. by rewrite (init_provider_raises pts m fresh e). Qed.
End ObjectFacts.

(** ** The returned set in terms of unordered edges *)

Section Characterisation.
Context {A : Type} `{DtypeSym A}.
Implicit Types (points : list (Point A)) (simplices : list Simplex) (a b c : nat).

Lemma valid_in_range points simplices :
  valid_triangulation points simplices → in_range points simplices.
Proof.
  unfold valid_triangulation, in_range. intros Hv.
  eapply Forall_impl; [exact Hv |]. by intros s [_ ?].
Qed.

Lemma candidate_delaunay_edge simplices a b :
  a ≠ b → candidate simplices {[a; b]} ↔ delaunay_edge simplices a b.
Proof.
  intros Hne. split.
  - intros (s & [c d] & Hs & Hcd & Heq). exists s. split; [done |].
    apply elem_of_combinations2 in Hcd as [Hc Hd].
    apply (frozenset_inj a b c d) in Heq as [[-> ->] | [-> ->]]; by split.
  - intros (s & Hs & Ha & Hb).
    destruct (combinations2_complete a b s Ha Hb Hne) as [Hab | Hba].
    + by exists s, (a, b).
    + exists s, (b, a). split_and!; [done .. |]. apply (frozenset_swap a b).
Qed.

Lemma candidate_is_pair points simplices e :
  valid_triangulation points simplices → candidate simplices e →
  ∃ a b, a ≠ b ∧ e = {[a; b]} ∧ delaunay_edge simplices a b.
Proof.
  intros Hv (s & [a b] & Hs & Hab & ->). exists a, b.
  unfold valid_triangulation in Hv. rewrite Forall_forall in Hv.
  destruct (Hv s Hs) as [Hnd _].
  split; [by eapply combinations2_NoDup_ne |]. split; [done |].
  exists s. split; [done |]. by apply elem_of_combinations2.
Qed.

Lemma not_removed_empty_circle points simplices a b :
  a ≠ b → ¬ removed points simplices {[a; b]} ↔ empty_circle points simplices a b.
Proof.
  intros Hne. split.
  - intros Hnr s c pa pb pc Hs Ha Hb Hc Hca Hcb Hpa Hpb Hpc.
    destruct (_inside_midpoint_circle pa pb pc) eqn:Hin; [| done].
    destruct Hnr.
    destruct (combinations2_complete a b s Ha Hb Hne) as [Hab | Hba].
    + exists s, (a, b). split_and!; [done .. |]. by exists c, pa, pb, pc.
    + exists s, (b, a). split_and!; [done | done | apply (frozenset_swap a b) |].
      exists c, pb, pa, pc. rewrite inside_midpoint_circle_sym. by split_and!.
  - intros Hemp (s & [x y] & Hs & Hxy & Heq & (c & px & py & pc & Hc & Hcx & Hcy & Hpx & Hpy & Hpc & Hin)).
    simpl in *. apply elem_of_combinations2 in Hxy as [Hx Hy].
    apply (frozenset_inj a b x y) in Heq as [[-> ->] | [-> ->]].
    + rewrite (Hemp s c px py pc) in Hin; done.
    + rewrite inside_midpoint_circle_sym in Hin.
      rewrite (Hemp s c py px pc) in Hin; done.
Qed.

(** The edge filter on a valid triangulation: it returns, and what it
    returns is the set of edges [{a, b}] of the triangulation whose
    circle is empty in the sense above. *)
Lemma gabriel_filter_unordered points simplices :
  valid_triangulation points simplices →
  ∃ E, gabriel_filter points simplices = Ok E ∧
       (∀ e, e ∈ E → ∃ a b, a ≠ b ∧ e = {[a; b]} ∧ delaunay_edge simplices a b) ∧
       (∀ a b, a ≠ b →
          {[a; b]} ∈ E ↔ delaunay_edge simplices a b ∧ empty_circle points simplices a b).
Proof.
  intros Hv.
  destruct (gabriel_filter_returns points simplices (valid_in_range _ _ Hv)) as (E & HE & Hspec).
  exists E. split; [done |]. split.
  - intros e [Hc _]%Hspec. by eapply candidate_is_pair.
  - intros a b Hne.
    by rewrite Hspec, candidate_delaunay_edge, not_removed_empty_circle.
Qed.
End Characterisation.

(** ** The stand-in provider meets the contract *)

Section Provider.
Context {A : Type} `{Dtype A} `{EqDecision A}.
Implicit Types (p q r : Point A) (pts : list (Point A)).

Lemma triangle_not_degenerate p q r : triangle p q r → ¬ degenerate [p; q; r].
Proof.
  intros (d & Hd & Hne) [Hlen | Hcol]; [simpl in Hlen; lia |].
  unfold collinear in Hcol. rewrite !Forall_forall in Hcol.
  assert (Hpqr : collinear3 p q r).
  { specialize (Hcol p ltac:(set_solver)). rewrite Forall_forall in Hcol.
    specialize (Hcol q ltac:(set_solver)). rewrite Forall_forall in Hcol.
    apply Hcol. set_solver. }
  unfold collinear3 in Hpqr. congruence.
Qed.


Lemma stub_triangulates_triangle : triangulates_triangle stub_Delaunay.
Proof.
  intros p q r Ht. exists [0; 1; 2]. split; [| done].
  unfold stub_Delaunay. rewrite decide_False; [done |].
  by apply triangle_not_degenerate.
Qed.
End Provider.

(** ** Runs on the sample inputs *)

Example square_run_02 :
  gabriel_filter square (Delaunay.simplices square_tri_02)
  = Ok {[ {[0; 1]}; {[1; 2]}; {[0; 2]}; {[2; 3]}; {[0; 3]} ]}.
Proof. apply (bool_decide_unpack _). by vm_compute. Qed.

Example square_run_13 :
  gabriel_filter square (Delaunay.simplices square_tri_13)
  = Ok {[ {[0; 1]}; {[1; 3]}; {[0; 3]}; {[1; 2]}; {[2; 3]} ]}.
Proof. apply (bool_decide_unpack _). by vm_compute. Qed.

Example obtuse_run :
  gabriel_filter obtuse_triangle [[0; 1; 2]] = Ok {[ {[0; 2]}; {[1; 2]} ]}.
Proof. apply (bool_decide_unpack _). by vm_compute. Qed.

Example out_of_range_run :
  gabriel_filter two_points [[0; 1; 2]] = Raise IndexError.
Proof. apply (bool_decide_unpack _). by vm_compute. Qed.

Example stub_on_right_triangle :
  stub_Delaunay right_triangle = Ok (Delaunay.mk [[0; 1; 2]]).
Proof. apply (bool_decide_unpack _). by vm_compute. Qed.

Example stub_on_two_points : stub_Delaunay two_points = Raise DegenerateInputError.
Proof. apply (bool_decide_unpack _). by vm_compute. Qed.

Example stub_on_line : stub_Delaunay three_on_a_line = Raise DegenerateInputError.
Proof. apply (bool_decide_unpack _). by vm_compute. Qed.

(** ** The kernel on 2-D points, in the arithmetic of the array *)

Section KernelComputed.
Context {A : Type} {D : Dtype A} {DO : DtypeOrder A}.


End KernelComputed.



(** ** The builder on a valid triangulation *)

Section Builder.
Context {A : Type} `{Dtype A} {Callable : Type}.
Implicit Types (self : GraphTools A Callable) (pts : list (Point A)).


(** C3: the simplices may be processed in any order; the returned set
    is the same. *)
Theorem gabriel_graph_order_independent self1 self2 pts (l1 l2 : list Simplex) :
  triangulation self1 = Some (Delaunay.mk l1) →
  triangulation self2 = Some (Delaunay.mk l2) →
  in_range pts l1 →
  l1 ≡ₚ l2 →
  ∃ E, _gabriel_graph (Some pts) self1 = (Ok E, self1) ∧
       _gabriel_graph (Some pts) self2 = (Ok E, self2).
Proof.
  intros Ht1 Ht2 Hr Hperm.
  assert (Hr2 : in_range pts l2) by (unfold in_range in *; by rewrite <- Hperm).
  destruct (gabriel_filter_returns pts l1 Hr) as (E1 & HE1 & Hs1).
  destruct (gabriel_filter_returns pts l2 Hr2) as (E2 & HE2 & Hs2).
  assert (Hmem : ∀ s : Simplex, s ∈ l1 ↔ s ∈ l2) by (intros s; by rewrite Hperm).
  assert (E1 = E2) as <-.
  { apply set_eq. intros e. rewrite Hs1, Hs2. unfold candidate, removed.
    split; intros [(s & edge & Hs & ?) Hn]; (split; [exists s, edge; split; [by apply Hmem | done] |]);
      intros (s' & edge' & Hs' & ?); apply Hn; exists s', edge'; (split; [by apply Hmem | done]). }
  exists E1.
  rewrite (gabriel_graph_private_run pts self1 _ Ht1), (gabriel_graph_private_run pts self2 _ Ht2).
  simpl. by rewrite HE1, HE2.
Qed.

(** C4: every Gabriel edge is a two-element subset of some simplex of
    the triangulation it was built from. *)
Theorem gabriel_subgraph_of_delaunay self pts (tri : Delaunay.t) :
  triangulation self = Some tri →
  valid_triangulation pts (Delaunay.simplices tri) →
  ∃ E, _gabriel_graph (Some pts) self = (Ok E, self) ∧
       ∀ e, e ∈ E →
         ∃ s a b, s ∈ Delaunay.simplices tri ∧ a ∈ s ∧ b ∈ s ∧ a ≠ b ∧ e = {[a; b]}.
Proof.
  intros Htri Hv.
  destruct (gabriel_filter_returns pts _ (valid_in_range _ _ Hv)) as (E & HE & Hspec).
  exists E. rewrite (gabriel_graph_private_run pts self tri Htri), HE.
  split; [done |]. intros e [Hc _]%Hspec.
  destruct (candidate_is_pair pts _ e Hv Hc) as (a & b & Hne & -> & s & Hs & Ha & Hb).
  by exists s, a, b.
Qed.
End Builder.

Lemma square_valid : valid_triangulation square (Delaunay.simplices square_tri_02).
Proof. apply (bool_decide_unpack _). by vm_compute. Defined.


(** C3 on the square, its two triangles taken in either order. *)
Lemma gabriel_graph_order_independent_witness :
  ∃ E, _gabriel_graph (Some square) square_object = (Ok E, square_object) ∧
       _gabriel_graph (Some square)
         (rebuilt square (Delaunay.mk [[0; 2; 3]; [0; 1; 2]]) ∅ None : GraphTools Z (Point Z → Point Z → Z))
       = (Ok E, rebuilt square (Delaunay.mk [[0; 2; 3]; [0; 1; 2]]) ∅ None).
Proof.
  apply (gabriel_graph_order_independent square_object _ square
           [[0; 1; 2]; [0; 2; 3]] [[0; 2; 3]; [0; 1; 2]]).
  - reflexivity.
  - reflexivity.
  - apply (bool_decide_unpack _). by vm_compute.
  - apply Permutation_swap.
Defined.

(** C4 on the square triangulated along the diagonal 0-2. *)
Lemma gabriel_subgraph_of_delaunay_witness :
  ∃ E, _gabriel_graph (Some square) square_object = (Ok E, square_object) ∧
       ∀ e, e ∈ E →
         ∃ s a b, s ∈ Delaunay.simplices square_tri_02 ∧ a ∈ s ∧ b ∈ s ∧ a ≠ b ∧ e = {[a; b]}.
Proof.
  apply (gabriel_subgraph_of_delaunay square_object square square_tri_02).
  - reflexivity.
  - exact square_valid.
Defined.

(** ** The square: a tie on every diagonal *)

Lemma square_never_inside (i j k : nat) (px py pc : Point Z) :
  square !! i = Some px → square !! j = Some py → square !! k = Some pc →
  _inside_midpoint_circle px py pc = false.
Proof.
  destruct i as [| [| [| [| i]]]]; try done;
    (destruct j as [| [| [| [| j]]]]; try done);
    (destruct k as [| [| [| [| k]]]]; try done);
    intros [= <-] [= <-] [= <-]; reflexivity.
Qed.

(** C5: for the points (0,0), (1,0), (1,1), (0,1) the filter removes no
    edge.  Whatever simplices the triangulation has, the returned set is
    the set of all edges of the simplices, sides and diagonals alike: the
    corners opposite a diagonal are on its circle, not inside it. *)
Theorem square_keeps_every_edge {Callable : Type}
    (self : GraphTools Z Callable) (tri : Delaunay.t) :
  triangulation self = Some tri →
  in_range square (Delaunay.simplices tri) →
  (on_diametral_circle [0; 0] [1; 1] [1; 0] ∧ on_diametral_circle [0; 0] [1; 1] [0; 1] ∧
   on_diametral_circle [1; 0] [0; 1] [0; 0] ∧ on_diametral_circle [1; 0] [0; 1] [1; 1])%Z ∧
  ∃ E, _gabriel_graph (Some square) self = (Ok E, self) ∧
       ∀ e, e ∈ E ↔ candidate (Delaunay.simplices tri) e.
Proof.
  intros Htri Hr. split; [by vm_compute |].
  destruct (gabriel_filter_returns square _ Hr) as (E & HE & Hspec).
  exists E. rewrite (gabriel_graph_private_run square self tri Htri), HE.
  split; [done |]. intros e. rewrite Hspec. split; [by intros [? _] |].
  intros Hc. split; [done |].
  intros (s & edge & _ & _ & _ & (c & px & py & pc & _ & _ & _ & Hx & Hy & Hp & Hin)).
  by rewrite (square_never_inside _ _ _ px py pc Hx Hy Hp) in Hin.
Qed.

(** C5 on the triangulation along the diagonal 0-2. *)
Lemma square_keeps_every_edge_witness :
  ∃ E, _gabriel_graph (Some square) square_object = (Ok E, square_object) ∧
       ∀ e, e ∈ E ↔ candidate (Delaunay.simplices square_tri_02) e.
Proof.
  apply (square_keeps_every_edge square_object square_tri_02).
  - reflexivity.
  - apply (bool_decide_unpack _). by vm_compute.
Defined.

(** ** Failures of the provider, and calls without points *)

Section Protocol.
Context {A : Type} `{Dtype A} {Callable : Type}.
Variable Delaunay : list (Point A) → result Delaunay.t.
Implicit Types (self : GraphTools A Callable) (pts : list (Point A)).
Implicit Types (m : option Callable).

Lemma new_run pts m :
  new Delaunay (Some pts) m =
    match Delaunay pts with
    | Raise e => Raise e
    | Ok tri =>
        match gabriel_filter pts (Delaunay.simplices tri) with
        | Raise e => Raise e
        | Ok E => Ok (rebuilt pts tri E m)
        end
    end.
Proof.
  destruct (Delaunay pts) as [tri | e] eqn:HD; [| by apply new_provider_raises].
  destruct (gabriel_filter pts (Delaunay.simplices tri)) as [E | e] eqn:HE;
    [by apply new_ok |].
  unfold new, __init__, _delaunay_triangulation, _gabriel_graph,
    mbind, M_bind, bind, getattr, lift, set_points, set_triangulation,
    set_simplices, set_gabriel_edges, set_metric.
  simpl. rewrite HD. simpl. by rewrite HE.
Qed.


(** C7, as the code has it: a rebuild that returns replaces points,
    triangulation, simplices and edge set together and returns the full
    edge set; a rebuild in which the provider raises returns no edge set
    and keeps the triangulation, the simplices, the edge set and the
    metric from before the call, but [points] already holds the new
    array. *)
Theorem rebuild_replaces_all_or_points_only pts self :
  (∀ tri, Delaunay pts = Ok tri → in_range pts (Delaunay.simplices tri) →
     ∃ E, gabriel_filter pts (Delaunay.simplices tri) = Ok E ∧
          gabriel_graph Delaunay (Some pts) self = (Ok E, rebuilt pts tri E None)) ∧
  (∀ e, Delaunay pts = Raise e →
     ∃ self', gabriel_graph Delaunay (Some pts) self = (Raise e, self') ∧
              points self' = Some pts ∧
              triangulation self' = triangulation self ∧
              simplices self' = simplices self ∧
              gabriel_edges self' = gabriel_edges self ∧
              metric self' = metric self).
Proof.
  split.
  - intros tri HD Hr. destruct (gabriel_filter_returns pts _ Hr) as (E & HE & _).
    exists E. split; [done |]. by apply gabriel_graph_ok.
  - intros e HD. exists (with_points pts self).
    split; [by apply gabriel_graph_provider_raises | done].
Qed.

(** C8, as the code has it: constructing the object without points
    returns normally and assigns [metric] only; the check for missing
    points is made by [_delaunay_triangulation] and [_gabriel_graph],
    which raise [AssertionError] with the message [No points!] when they
    are handed [None]. *)
Theorem missing_points m self :
  new Delaunay None m = Ok (without_points m) ∧
  _delaunay_triangulation Delaunay None self = (Raise (AssertionError "No points!"), self) ∧
  _gabriel_graph None self = (Raise (AssertionError "No points!"), self).
Proof. done. Qed.

(** C10: the edge set built by the constructor does not depend on the
    [metric] argument.  The two runs fail alike or succeed alike, and
    the objects they leave differ in the [metric] attribute only. *)
Theorem metric_is_ignored pts (m1 m2 : option Callable) :
  ((∃ e, new Delaunay (Some pts) m1 = Raise e ∧ new Delaunay (Some pts) m2 = Raise e) ∨
   (∃ tri E, new Delaunay (Some pts) m1 = Ok (rebuilt pts tri E m1) ∧
             new Delaunay (Some pts) m2 = Ok (rebuilt pts tri E m2) ∧
             gabriel_edges (rebuilt pts tri E m1) = Some E ∧
             gabriel_edges (rebuilt pts tri E m2) = Some E)) ∧
  (∀ tri, Delaunay pts = Ok tri → in_range pts (Delaunay.simplices tri) →
     ∃ E, gabriel_filter pts (Delaunay.simplices tri) = Ok E ∧
          new Delaunay (Some pts) m1 = Ok (rebuilt pts tri E m1) ∧
          new Delaunay (Some pts) m2 = Ok (rebuilt pts tri E m2)).
Proof.
  rewrite !new_run. split.
  - destruct (Delaunay pts) as [tri | e]; [| left; by exists e].
    destruct (gabriel_filter pts (Delaunay.simplices tri)) as [E | e] eqn:HE;
      [| left; by exists e].
    right. by exists tri, E.
  - intros tri -> Hr. destruct (gabriel_filter_returns pts _ Hr) as (E & HE & _).
    exists E. by rewrite HE.
Qed.
End Protocol.

(** ** Three points: one simplex, three candidate edges *)

Lemma three_edges_cases (e : Edge) :
  e ∈ three_edges → e = {[0; 1]} ∨ e = {[0; 2]} ∨ e = {[1; 2]}.
Proof.
  unfold three_edges. rewrite !elem_of_union, !elem_of_singleton. tauto.
Qed.

Lemma pair_in_three_edges (a b : nat) :
  a ≠ b → a < 3 → b < 3 → ({[a; b]} : Edge) ∈ three_edges.
Proof.
  intros Hne Ha Hb. unfold three_edges. rewrite !elem_of_union, !elem_of_singleton.
  destruct a as [| [| [| a]]]; [| | | lia];
    (destruct b as [| [| [| b]]]; [| | | lia]); try done.
  - by left; left.
  - by left; right.
  - left; left. apply (frozenset_swap 1 0).
  - by right.
  - left; right. apply (frozenset_swap 2 0).
  - right. apply (frozenset_swap 2 1).
Qed.

Section SingleTriangle.
Context {A : Type} {D : Dtype A} {DS : DtypeSym A}.

Lemma computed_sq2_sym (a1 a2 b1 b2 : A) :
  computed_sq2 a1 a2 b1 b2 = computed_sq2 b1 b2 a1 a2.
Proof. apply (sq_dist_sym [a1; a2] [b1; b2]). Qed.

(** The filter on one triangle: it returns sides of the triangle only,
    and a side exactly when its computed squared length is not greater
    than the computed sum of the squared lengths of the other two. *)
Lemma single_triangle_filter (a1 a2 b1 b2 c1 c2 : A) (s : Simplex) :
  s ≡ₚ [0; 1; 2] →
  ∃ E : gset Edge,
    gabriel_filter [[a1; a2]; [b1; b2]; [c1; c2]] [s] = Ok E ∧
    (∀ e, candidate [s] e ↔ e ∈ three_edges) ∧
    E ⊆ three_edges ∧
    ({[1; 2]} ∈ E ↔
       d_gtb (computed_sq2 b1 b2 c1 c2)
             (d_add (computed_sq2 a1 a2 b1 b2) (computed_sq2 a1 a2 c1 c2)) = false) ∧
    ({[0; 2]} ∈ E ↔
       d_gtb (computed_sq2 a1 a2 c1 c2)
             (d_add (computed_sq2 a1 a2 b1 b2) (computed_sq2 b1 b2 c1 c2)) = false) ∧
    ({[0; 1]} ∈ E ↔
       d_gtb (computed_sq2 a1 a2 b1 b2)
             (d_add (computed_sq2 a1 a2 c1 c2) (computed_sq2 b1 b2 c1 c2)) = false).
Proof.
  intros Hperm.
  set (pts := [[a1; a2]; [b1; b2]; [c1; c2]] : list (Point A)) in *.
  assert (Hmem : ∀ i, i ∈ s ↔ i < 3).
  { intros i. rewrite Hperm, !elem_of_cons, elem_of_nil. lia. }
  assert (Hnd : NoDup s).
  { rewrite Hperm. apply (bool_decide_unpack _). by vm_compute. }
  assert (Hv : valid_triangulation pts [s]).
  { apply Forall_singleton. split; [done |]. apply Forall_forall. intros i. apply Hmem. }
  destruct (gabriel_filter_unordered pts [s] Hv) as (E & HE & Hpair & Hiff).
  assert (Hedge : ∀ a b, a < 3 → b < 3 → delaunay_edge [s] a b).
  { intros a b Ha Hb. exists s. split; [by left |]. split; by apply Hmem. }
  assert (Hin : ∀ a b, delaunay_edge [s] a b → a < 3 ∧ b < 3).
  { intros a b (s' & ->%list_elem_of_singleton & Ha & Hb). split; by apply Hmem. }
  exists E. split; [exact HE |]. split.
  { intros e. split.
    - intros Hc. destruct (candidate_is_pair pts [s] e Hv Hc) as (a & b & Hne & -> & Hab).
      destruct (Hin a b Hab). by apply pair_in_three_edges.
    - intros [-> | [-> | ->]]%three_edges_cases;
        (apply candidate_delaunay_edge; [lia | apply Hedge; lia]). }
  split.
  { intros e (a & b & Hne & -> & Hab)%Hpair.
    destruct (Hin a b Hab). by apply pair_in_three_edges. }
  split_and!.
  - rewrite (Hiff 1 2) by lia. split.
    + intros [_ Hemp].
      specialize (Hemp s 0 [b1; b2] [c1; c2] [a1; a2]).
      rewrite (computed_sq2_sym a1 a2 b1 b2), (computed_sq2_sym a1 a2 c1 c2).
      apply Hemp; try done; try (apply Hmem; lia). by left.
    + intros Hcmp. split; [apply Hedge; lia |].
      intros s' c pa pb pc ->%list_elem_of_singleton _ _ Hc%Hmem Hca Hcb Hpa Hpb Hpc.
      (destruct c as [| [| [| c]]]; [| | | lia]); try done.
      simpl in Hpa, Hpb, Hpc. simplify_eq.
      rewrite <- Hcmp, (computed_sq2_sym a1 a2 b1 b2), (computed_sq2_sym a1 a2 c1 c2).
      reflexivity.
  - rewrite (Hiff 0 2) by lia. split.
    + intros [_ Hemp].
      specialize (Hemp s 1 [a1; a2] [c1; c2] [b1; b2]).
      rewrite (computed_sq2_sym b1 b2 c1 c2).
      apply Hemp; try done; try (apply Hmem; lia). by left.
    + intros Hcmp. split; [apply Hedge; lia |].
      intros s' c pa pb pc ->%list_elem_of_singleton _ _ Hc%Hmem Hca Hcb Hpa Hpb Hpc.
      (destruct c as [| [| [| c]]]; [| | | lia]); try done.
      simpl in Hpa, Hpb, Hpc. simplify_eq.
      rewrite <- Hcmp, (computed_sq2_sym b1 b2 c1 c2).
      reflexivity.
  - rewrite (Hiff 0 1) by lia. split.
    + intros [_ Hemp].
      specialize (Hemp s 2 [a1; a2] [b1; b2] [c1; c2]).
      apply Hemp; try done; try (apply Hmem; lia). by left.
    + intros Hcmp. split; [apply Hedge; lia |].
      intros s' c pa pb pc ->%list_elem_of_singleton _ _ Hc%Hmem Hca Hcb Hpa Hpb Hpc.
      (destruct c as [| [| [| c]]]; [| | | lia]); try done.
      simpl in Hpa, Hpb, Hpc. simplify_eq.
      rewrite <- Hcmp. reflexivity.
Qed.
End SingleTriangle.

Section ThreePoints.
Context {A : Type} {D : Dtype A} {DS : DtypeSym A} {DO : DtypeOrder A} {DN : DtypeNonneg A}.
Context {Callable : Type}.
Variable Delaunay : list (Point A) → result Delaunay.t.

Lemma np_sum_power2_nonneg (v : Point A) (acc : A) :
  d_gtb d_zero acc = false → d_gtb d_zero (foldl d_add acc (np_power2 v)) = false.
Proof.
  revert acc. induction v as [| c v IH]; intros acc Hacc; simpl; [done |].
  apply IH. apply d_add_nonneg; [done | apply d_sq_nonneg].
Qed.

(** A computed squared distance is not below zero. *)
Lemma sq_dist_nonneg (x y : Point A) : d_gtb d_zero (sq_dist x y) = false.
Proof. unfold sq_dist, np_sum. apply np_sum_power2_nonneg, d_gtb_irrefl. Qed.

Lemma computed_sq2_not_above_double (a1 a2 b1 b2 : A) :
  d_gtb (computed_sq2 a1 a2 b1 b2)
        (d_add (computed_sq2 a1 a2 b1 b2) (computed_sq2 a1 a2 b1 b2)) = false.
Proof. apply d_double_ge. apply (sq_dist_nonneg [a1; a2] [b1; b2]). Qed.

(** C9, as amended: when the provider answers three points with one
    simplex on the three indices, the builder enumerates three candidate
    edges, the three sides, and returns a side exactly when its computed
    squared length is not greater than the computed sum of the squared
    lengths of the other two sides.  When the three computed squared
    lengths are equal, the three sides are the Gabriel edge set. *)
Theorem three_points_computed_sides (a1 a2 b1 b2 c1 c2 : A) (s : Simplex)
    (m : option Callable) :
  Delaunay [[a1; a2]; [b1; b2]; [c1; c2]] = Ok (Delaunay.mk [s]) →
  s ≡ₚ [0; 1; 2] →
  ∃ E : gset Edge,
    new Delaunay (Some [[a1; a2]; [b1; b2]; [c1; c2]]) m
      = Ok (rebuilt [[a1; a2]; [b1; b2]; [c1; c2]] (Delaunay.mk [s]) E m) ∧
    length (combinations2 s) = 3 ∧
    (∀ e, candidate [s] e ↔ e ∈ three_edges) ∧
    E ⊆ three_edges ∧
    ({[1; 2]} ∈ E ↔
       d_gtb (computed_sq2 b1 b2 c1 c2)
             (d_add (computed_sq2 a1 a2 b1 b2) (computed_sq2 a1 a2 c1 c2)) = false) ∧
    ({[0; 2]} ∈ E ↔
       d_gtb (computed_sq2 a1 a2 c1 c2)
             (d_add (computed_sq2 a1 a2 b1 b2) (computed_sq2 b1 b2 c1 c2)) = false) ∧
    ({[0; 1]} ∈ E ↔
       d_gtb (computed_sq2 a1 a2 b1 b2)
             (d_add (computed_sq2 a1 a2 c1 c2) (computed_sq2 b1 b2 c1 c2)) = false) ∧
    (computed_sq2 a1 a2 b1 b2 = computed_sq2 b1 b2 c1 c2 →
     computed_sq2 b1 b2 c1 c2 = computed_sq2 a1 a2 c1 c2 →
     E = three_edges).
Proof.
  intros HD Hperm.
  destruct (single_triangle_filter a1 a2 b1 b2 c1 c2 s Hperm)
    as (E & HE & Hcand & Hsub & H12 & H02 & H01).
  assert (Hlen : length s = 3) by (by rewrite Hperm).
  exists E. split; [by apply new_ok |]. split.
  { destruct s as [| x [| y [| z [| w s]]]]; simpl in Hlen; try lia. done. }
  split; [exact Hcand |].
  split; [exact Hsub |]. split; [exact H12 |]. split; [exact H02 |]. split; [exact H01 |].
  intros He1 He2.
  pose proof (computed_sq2_not_above_double a1 a2 b1 b2) as Hd.
  apply set_eq. intros e. split; [apply Hsub |].
  intros [-> | [-> | ->]]%three_edges_cases.
  - apply H01. by rewrite <- He2, <- He1.
  - apply H02. by rewrite <- He2, <- He1.
  - apply H12. by rewrite <- He2, <- He1.
Qed.
End ThreePoints.

(** ** The protocol on sample inputs *)

Example right_triangle_run :
  gabriel_filter right_triangle [[0; 1; 2]] = Ok three_edges.
Proof. apply (bool_decide_unpack _). by vm_compute. Qed.

Example triangle_object_built :
  new stub_Delaunay (Some right_triangle) None = Ok triangle_object.
Proof.
  apply new_ok; [exact stub_on_right_triangle | exact right_triangle_run].
Qed.

(** A query on an object that was built without points reads an
    attribute that was never assigned. *)
Example query_without_state :
  gabriel_graph (Callable := metric_fn) (stub_Delaunay (A := Z)) None (without_points None)
  = (Raise (AttributeError "gabriel_edges"), without_points None).
Proof. reflexivity. Qed.


(** C7, refuted as stated: after a rebuild that fails on two points, the
    object holds the two new points next to the triangulation, simplices
    and edge set of the triangle it was built from. *)
Lemma failed_rebuild_overwrites_points :
  new stub_Delaunay (Some right_triangle) None = Ok triangle_object ∧
  ∃ self',
    gabriel_graph stub_Delaunay (Some two_points) triangle_object
      = (Raise DegenerateInputError, self') ∧
    points self' = Some two_points ∧
    points self' ≠ points triangle_object ∧
    triangulation self' = triangulation triangle_object ∧
    simplices self' = simplices triangle_object ∧
    gabriel_edges self' = gabriel_edges triangle_object.
Proof.
  split; [exact triangle_object_built |].
  exists (with_points two_points triangle_object).
  split; [apply gabriel_graph_provider_raises; exact stub_on_two_points |].
  by split_and!.
Qed.

(** C7 as amended, on a rebuild that returns and on one that fails. *)
Lemma rebuild_replaces_all_or_points_only_witness :
  (∃ E, gabriel_filter right_triangle [[0; 1; 2]] = Ok E ∧
        gabriel_graph stub_Delaunay (Some right_triangle) (fresh : GraphTools Z metric_fn)
        = (Ok E, rebuilt right_triangle (Delaunay.mk [[0; 1; 2]]) E None)) ∧
  (∃ self', gabriel_graph stub_Delaunay (Some two_points) triangle_object
              = (Raise DegenerateInputError, self') ∧
            points self' = Some two_points ∧
            triangulation self' = triangulation triangle_object ∧
            simplices self' = simplices triangle_object ∧
            gabriel_edges self' = gabriel_edges triangle_object ∧
            metric self' = metric triangle_object).
Proof.
  split.
  - apply (proj1 (rebuild_replaces_all_or_points_only stub_Delaunay right_triangle fresh)
             (Delaunay.mk [[0; 1; 2]])).
    + exact stub_on_right_triangle.
    + apply (bool_decide_unpack _). by vm_compute.
  - apply (proj2 (rebuild_replaces_all_or_points_only stub_Delaunay two_points triangle_object)).
    exact stub_on_two_points.
Defined.

(** C8, refuted as stated: the constructor called without points returns
    an object. *)
Lemma construct_without_points_returns :
  new (Callable := metric_fn) (stub_Delaunay (A := Z)) None None = Ok (without_points None) ∧
  is_ok (new (Callable := metric_fn) (stub_Delaunay (A := Z)) None None) = true.
Proof. split; reflexivity. Qed.

(** C10 on the right triangle, without a metric and with a constant one. *)
Lemma metric_is_ignored_witness :
  ∃ E, gabriel_filter right_triangle [[0; 1; 2]] = Ok E ∧
       new stub_Delaunay (Some right_triangle) (None : option metric_fn)
         = Ok (rebuilt right_triangle (Delaunay.mk [[0; 1; 2]]) E None) ∧
       new stub_Delaunay (Some right_triangle) (Some (λ _ _ : Point Z, 0%Z))
         = Ok (rebuilt right_triangle (Delaunay.mk [[0; 1; 2]]) E (Some (λ _ _ : Point Z, 0%Z))).
Proof.
  apply (proj2 (metric_is_ignored stub_Delaunay right_triangle None (Some (λ _ _ : Point Z, 0%Z)))
           (Delaunay.mk [[0; 1; 2]])).
  - exact stub_on_right_triangle.
  - apply (bool_decide_unpack _). by vm_compute.
Defined.

Example stub_on_equal_sides :
  stub_Delaunay equal_sides_f = Ok (Delaunay.mk [[0; 1; 2]]).
Proof. apply (bool_decide_unpack _). by vm_compute. Qed.

Example stub_on_obtuse :
  stub_Delaunay obtuse_f = Ok (Delaunay.mk [[0; 1; 2]]).
Proof. apply (bool_decide_unpack _). by vm_compute. Qed.

Example stub_on_barely_obtuse :
  stub_Delaunay barely_obtuse_f = Ok (Delaunay.mk [[0; 1; 2]]).
Proof. apply (bool_decide_unpack _). by vm_compute. Qed.

Example barely_obtuse_run :
  gabriel_filter barely_obtuse_f [[0; 1; 2]] = Ok three_edges.
Proof. apply (bool_decide_unpack _). by vm_compute. Qed.

(** C9 as amended, on [float64] and the stand-in provider: a triangle
    whose three computed squared sides are 1.0 keeps its three sides,
    and the triangle (0,0), (4,0), (2,1), where 16 > 5 + 5, loses the
    side from row 0 to row 1 and keeps the other two. *)
Lemma three_points_computed_sides_witness :
  (∃ self : GraphTools float metric_f,
     new stub_Delaunay (Some equal_sides_f) None = Ok self ∧
     simplices self = Some [[0; 1; 2]] ∧
     gabriel_edges self = Some three_edges) ∧
  (∃ (E : gset Edge) (self : GraphTools float metric_f),
     new stub_Delaunay (Some obtuse_f) None = Ok self ∧
     gabriel_edges self = Some E ∧
     ({[0; 1]} ∉ E) ∧ {[0; 2]} ∈ E ∧ {[1; 2]} ∈ E).
Proof.
  split.
  - destruct (three_points_computed_sides (Callable := metric_f) stub_Delaunay
                0%float 0%float 1%float 0%float 0.5%float 0x1.bb67ae8584cabp-1%float
                [0; 1; 2] None stub_on_equal_sides ltac:(reflexivity))
      as (E & Hnew & _ & _ & _ & _ & _ & _ & Heq).
    exists (rebuilt equal_sides_f (Delaunay.mk [[0; 1; 2]]) E None).
    split; [exact Hnew |]. split; [reflexivity |]. simpl. f_equal.
    apply Heq; reflexivity.
  - destruct (three_points_computed_sides (Callable := metric_f) stub_Delaunay
                0%float 0%float 4%float 0%float 2%float 1%float
                [0; 1; 2] None stub_on_obtuse ltac:(reflexivity))
      as (E & Hnew & _ & _ & _ & H12 & H02 & H01 & _).
    exists E, (rebuilt obtuse_f (Delaunay.mk [[0; 1; 2]]) E None).
    split; [exact Hnew |]. split; [reflexivity |]. split_and!.
    + intros Hin. apply H01 in Hin. discriminate Hin.
    + apply H02. reflexivity.
    + apply H12. reflexivity.
Defined.

(** C9, refuted as stated: in the triangle (0,0), (0.5,0.5),
    (-0.5000000000000001,0.5) the angle at (0,0) is strictly greater
    than 90 degrees.  The coordinates are 2^52, 2^52 and -(2^52 + 1),
    2^52 in units of 2^-53, so the dot product of the two sides at (0,0)
    is -2^52 of those units squared, and in exact arithmetic the side
    from row 1 to row 2 is removed.  In [float64] its squared length and
    the sum of the other two are both computed as 1.0, and the side
    stays in the Gabriel edge set. *)
Lemma float64_obtuse_side_kept :
  binary64_value 0.5 = Some (4503599627370496, -53)%Z ∧
  binary64_value (-0x1.0000000000001p-1) = Some (-4503599627370497, -53)%Z ∧
  ((4503599627370496 - 0) * (-4503599627370497 - 0)
   + (4503599627370496 - 0) * (4503599627370496 - 0) < 0)%Z ∧
  (∃ E, gabriel_filter barely_obtuse_exact [[0; 1; 2]] = Ok E ∧ ({[1; 2]} ∉ E)) ∧
  stub_Delaunay barely_obtuse_f = Ok (Delaunay.mk [[0; 1; 2]]) ∧
  ∃ (E : gset Edge) (self : GraphTools float metric_f),
    new stub_Delaunay (Some barely_obtuse_f) None = Ok self ∧
    gabriel_edges self = Some E ∧
    {[1; 2]} ∈ E.
Proof.
  split_and!; try reflexivity.
  - exists {[ {[0; 1]}; {[0; 2]} ]}. split.
    + apply (bool_decide_unpack _). by vm_compute.
    + apply (bool_decide_unpack _). by vm_compute.
  - exists three_edges, (rebuilt barely_obtuse_f (Delaunay.mk [[0; 1; 2]]) three_edges None).
    split; [| split; [reflexivity | set_solver]].
    apply new_ok; [exact stub_on_barely_obtuse | exact barely_obtuse_run].
Qed.

(** * Further properties of the code *)

(** ** The kernel in any dimension, over the reals *)

Lemma foldl_Rplus_acc (acc : R) (v : list R) :
  foldl Rplus acc v = (acc + foldl Rplus 0 v)%R.
Proof.
  revert acc. induction v as [| a v IH]; intros acc; simpl; [lra |].
  rewrite (IH (acc + a)%R), (IH (0 + a)%R). lra.
Qed.

Lemma np_sum_cons_R (a : R) (v : Point R) : np_sum (a :: v) = (a + np_sum v)%R.
Proof.
  unfold np_sum. simpl. rewrite foldl_Rplus_acc. lra.
Qed.

Lemma sq_dist_cons_R (a b : R) (x y : Point R) :
  sq_dist (a :: x) (b :: y) = ((a - b) * (a - b) + sq_dist x y)%R.
Proof. unfold sq_dist, np_sub, np_power2. simpl zip_with. simpl map. apply np_sum_cons_R. Qed.

Lemma sq_dist_nil_l_R (y : Point R) : sq_dist [] y = 0%R.
Proof. reflexivity. Qed.

Lemma sq_dist_nil_r_R (x : Point R) : sq_dist x [] = 0%R.
Proof. by destruct x. Qed.

Lemma sq_dist_nonneg_R (x y : Point R) : (0 <= sq_dist x y)%R.
Proof.
  revert y. induction x as [| a x IH]; intros y; [rewrite sq_dist_nil_l_R; lra |].
  destruct y as [| b y]; [rewrite sq_dist_nil_r_R; lra |].
  rewrite sq_dist_cons_R. pose proof (IH y). pose proof (Rle_0_sqr (a - b)) as Hsq.
  unfold Rsqr in Hsq. lra.
Qed.

Lemma sq_dist_self_R (x : Point R) : sq_dist x x = 0%R.
Proof.
  induction x as [| a x IH]; [done |]. rewrite sq_dist_cons_R, IH. ring.
Qed.

(** X2: the verdict of [_inside_midpoint_circle] does not depend on the
    order in which the two ends of the diameter are passed. *)
Theorem kernel_ignores_endpoint_order {A : Type} `{DtypeSym A} (x y point : Point A) :
  _inside_midpoint_circle x y point = _inside_midpoint_circle y x point.
Proof. apply inside_midpoint_circle_sym. Qed.

(** X2 on three corners of the square. *)
Lemma kernel_ignores_endpoint_order_witness :
  _inside_midpoint_circle [0; 0]%Z [1; 1]%Z [1; 0]%Z
  = _inside_midpoint_circle [1; 1]%Z [0; 0]%Z [1; 0]%Z.
Proof. apply (kernel_ignores_endpoint_order (A := Z)). Defined.

(** X3: in any dimension, neither end of the diameter is inside its own
    circle, and the circle of a diameter of length zero has nothing
    inside. *)
Theorem kernel_on_degenerate_arguments (x y point : Point R) :
  _inside_midpoint_circle x y x = false ∧
  _inside_midpoint_circle x y y = false ∧
  _inside_midpoint_circle x x point = false.
Proof.
  unfold _inside_midpoint_circle. simpl d_gtb. simpl d_add.
  rewrite !sq_dist_self_R, (sq_dist_sym y x).
  pose proof (sq_dist_nonneg_R x y). pose proof (sq_dist_nonneg_R x point).
  split_and!; apply Rgtb_false; lra.
Qed.

(** ** The kernel on [float64] *)

Section SpecFloatMore.
Variables prec emax : Z.

Lemma SFsub_self (x : spec_float) :
  SFsub prec emax x x = S754_zero false ∨ SFsub prec emax x x = S754_nan.
Proof.
  destruct x as [[|] | [|] | | s m e]; simpl; try (by left); try (by right).
  left. by rewrite Z.sub_diag.
Qed.

Lemma SFsub_nan_l (x : spec_float) : SFsub prec emax S754_nan x = S754_nan.
Proof. done. Qed.

Lemma SFsub_nan_r (x : spec_float) : SFsub prec emax x S754_nan = S754_nan.
Proof. by destruct x. Qed.

Lemma SFadd_nan_l (x : spec_float) : SFadd prec emax S754_nan x = S754_nan.
Proof. done. Qed.

Lemma SFadd_nan_r (x : spec_float) : SFadd prec emax x S754_nan = S754_nan.
Proof. by destruct x. Qed.

Lemma SFltb_nan_l (x : spec_float) : SFltb S754_nan x = false.
Proof. done. Qed.

Lemma SFltb_nan_r (x : spec_float) : SFltb x S754_nan = false.
Proof. by destruct x. Qed.

(** Adding [+0] does not take a float below itself. *)
Lemma SFadd_zero_not_below (x : spec_float) :
  SFltb (SFadd prec emax (S754_zero false) x) x = false.
Proof.
  destruct x as [[|] | s | | s m e]; simpl; try done; apply SFltb_irrefl.
Qed.
End SpecFloatMore.

Lemma float_sub_self (a : float) : zero_or_nan (a - a)%float.
Proof.
  destruct (SFsub_self prec emax (Prim2SF a)) as [Hz | Hn]; [left | right];
    apply Prim2SF_eq; by rewrite sub_spec.
Qed.

Lemma float_sq_zero_or_nan (a : float) : zero_or_nan a → zero_or_nan (a * a)%float.
Proof. intros [-> | ->]; [by left | by right]. Qed.

Lemma float_add_zero_or_nan (a b : float) :
  zero_or_nan a → zero_or_nan b → zero_or_nan (a + b)%float.
Proof. intros [-> | ->] [-> | ->]; (by left) || (by right). Qed.

Lemma float_sum_zero_or_nan (v : Point float) (acc : float) :
  zero_or_nan acc → Forall zero_or_nan v → zero_or_nan (foldl PrimFloat.add acc v).
Proof.
  revert acc. induction v as [| c v IH]; intros acc Hacc Hv; simpl; [done |].
  apply Forall_cons in Hv as [Hc Hv]. apply IH; [| done]. by apply float_add_zero_or_nan.
Qed.

(** The computed squared distance of a row to itself is [+0], or NaN
    when a coordinate is infinite or NaN. *)
Lemma float_sq_dist_self (x : Point float) : zero_or_nan (sq_dist x x).
Proof.
  unfold sq_dist, np_sum. apply float_sum_zero_or_nan; [by left |].
  unfold np_power2, np_sub. apply Forall_fmap, Forall_forall.
  intros c Hc. simpl. apply float_sq_zero_or_nan.
  apply elem_of_lookup_zip_with in Hc as (i & a & b & -> & Ha & Hb).
  assert (a = b) as -> by congruence. apply float_sub_self.
Qed.

Lemma float_ltb_nan_l (a : float) : (nan <? a)%float = false.
Proof. by rewrite ltb_spec. Qed.

Lemma float_ltb_nan_r (a : float) : (a <? nan)%float = false.
Proof. rewrite ltb_spec. apply SFltb_nan_r. Qed.

Lemma float_add_nan_l (a : float) : (nan + a)%float = nan.
Proof. apply Prim2SF_eq. by rewrite add_spec. Qed.

Lemma float_add_nan_r (a : float) : (a + nan)%float = nan.
Proof. apply Prim2SF_eq. rewrite add_spec. apply SFadd_nan_r. Qed.

Lemma float_sub_nan_l (a : float) : (nan - a)%float = nan.
Proof. apply Prim2SF_eq. by rewrite sub_spec. Qed.

Lemma float_sub_nan_r (a : float) : (a - nan)%float = nan.
Proof. apply Prim2SF_eq. rewrite sub_spec. apply SFsub_nan_r. Qed.

Lemma float_zero_add_not_below (a : float) : (0 + a <? a)%float = false.
Proof. rewrite ltb_spec, add_spec. apply SFadd_zero_not_below. Qed.

Lemma float_zero_or_nan_add_not_below (z a : float) :
  zero_or_nan z → (z + a <? a)%float = false ∧ (a + z <? a)%float = false.
Proof.
  intros [-> | ->].
  - pose proof (d_add_comm (A := float) a 0%float) as Hc. simpl in Hc. rewrite Hc.
    split; apply float_zero_add_not_below.
  - rewrite float_add_nan_l, float_add_nan_r. split; apply float_ltb_nan_l.
Qed.

(** X16: on [float64] rows, infinite and NaN coordinates included, the
    verdict of [_inside_midpoint_circle] does not depend on the order of
    the two ends of the diameter. *)
Theorem float64_kernel_ignores_endpoint_order (x y point : Point float) :
  _inside_midpoint_circle x y point = _inside_midpoint_circle y x point.
Proof. apply inside_midpoint_circle_sym. Qed.

(** X17: on [float64] rows, neither end of the diameter is inside its
    own circle, and the circle of a diameter from a row to itself has
    nothing inside. *)
Theorem float64_kernel_on_degenerate_arguments (x y point : Point float) :
  _inside_midpoint_circle x y x = false ∧
  _inside_midpoint_circle x y y = false ∧
  _inside_midpoint_circle x x point = false.
Proof.
  unfold _inside_midpoint_circle. simpl d_gtb. simpl d_add.
  split_and!.
  - rewrite (sq_dist_sym y x).
    apply (proj1 (float_zero_or_nan_add_not_below _ _ (float_sq_dist_self x))).
  - apply (proj2 (float_zero_or_nan_add_not_below _ _ (float_sq_dist_self y))).
  - destruct (float_sq_dist_self x) as [-> | ->]; [| apply float_ltb_nan_r].
    exact (d_add_nonneg (A := float) _ _ (sq_dist_nonneg x point) (sq_dist_nonneg x point)).
Qed.

Lemma computed_sq2_nan (a1 a2 b1 b2 : float) :
  nan ∈ [a1; a2; b1; b2] → computed_sq2 a1 a2 b1 b2 = nan.
Proof.
  rewrite !elem_of_cons, elem_of_nil. unfold computed_sq2. simpl.
  intros [<- | [<- | [<- | [<- | []]]]];
    rewrite ?float_sub_nan_l, ?float_sub_nan_r;
    change (nan * nan)%float with nan;
    by rewrite ?float_add_nan_r, ?float_add_nan_l.
Qed.

(** X18: on 2-D [float64] points, a NaN coordinate in any of the three
    arguments makes [_inside_midpoint_circle] false, and the loop body
    that tests a neighbour leaves [removed_edges] as it was. *)
Theorem float64_nan_never_inside (x1 x2 y1 y2 p1 p2 : float) :
  nan ∈ [x1; x2; y1; y2; p1; p2] →
  _inside_midpoint_circle [x1; x2] [y1; y2] [p1; p2] = false ∧
  ∀ (points : list (Point float)) (edge : nat * nat) (removed_edges : list Edge) (c : nat),
    points !! c = Some [p1; p2] →
    neighbor_step points edge [x1; x2] [y1; y2] removed_edges c = Ok removed_edges.
Proof.
  intros Hnan.
  assert (Hf : _inside_midpoint_circle [x1; x2] [y1; y2] [p1; p2] = false).
  { change ((computed_sq2 x1 x2 p1 p2 + computed_sq2 y1 y2 p1 p2
               <? computed_sq2 x1 x2 y1 y2)%float = false).
    rewrite !elem_of_cons, elem_of_nil in Hnan.
    assert (nan ∈ [x1; x2; y1; y2] ∨ nan ∈ [x1; x2; p1; p2]) as [Hd | Hs].
    { rewrite !elem_of_cons, !elem_of_nil. tauto. }
    - rewrite (computed_sq2_nan x1 x2 y1 y2 Hd). apply float_ltb_nan_r.
    - rewrite (computed_sq2_nan x1 x2 p1 p2 Hs), float_add_nan_l. apply float_ltb_nan_l. }
  split; [done |]. intros points edge removed_edges c Hc.
  apply getitem_Ok in Hc. unfold neighbor_step, Point in *.
  by rewrite Hc, Hf.
Qed.

(** X18 on the obtuse triangle: (2,1) is inside the circle of the side
    from (0,0) to (4,0), and (2,NaN) is not. *)
Lemma float64_nan_never_inside_witness :
  _inside_midpoint_circle [0; 0]%float [4; 0]%float [2; 1]%float = true ∧
  _inside_midpoint_circle [0; 0]%float [4; 0]%float [2; nan]%float = false.
Proof.
  split; [reflexivity |].
  apply (float64_nan_never_inside 0 0 4 0 2 nan)%float.
  rewrite !elem_of_cons. tauto.
Defined.

(** ** When the filter raises *)

Lemma foldM_Ok_each {S X : Type} (f : S → X → result S) (l : list X) (s s' : S) :
  foldM f s l = Ok s' → ∀ x, x ∈ l → ∃ s1 s2, f s1 x = Ok s2.
Proof.
  revert s. induction l as [| y t IH]; intros s Hf x Hx; [by apply elem_of_nil in Hx |].
  simpl in Hf. destruct (f s y) as [s1 | e] eqn:Hy; [| done].
  apply elem_of_cons in Hx as [-> | Hx]; [by exists s, s1 | by eapply IH].
Qed.

Lemma foldM_Raise_some {S X : Type} (f : S → X → result S) (l : list X) (s : S) (e : exn) :
  foldM f s l = Raise e → ∃ s1 x, x ∈ l ∧ f s1 x = Raise e.
Proof.
  revert s. induction l as [| y t IH]; intros s Hf; [done |].
  simpl in Hf. destruct (f s y) as [s1 | e'] eqn:Hy.
  - destruct (IH s1 Hf) as (s2 & x & Hx & Hfx). exists s2, x. split; [by right | done].
  - simplify_eq. exists s, y. split; [left | done].
Qed.

Lemma in_some_combination {X : Type} (i : X) (l : list X) :
  i ∈ l → 2 ≤ length l → ∃ ab, ab ∈ combinations2 l ∧ (ab.1 = i ∨ ab.2 = i).
Proof.
  destruct l as [| x [| y t]]; intros Hi Hlen; simpl in Hlen; [lia | lia |].
  apply elem_of_cons in Hi as [-> | Hi].
  - exists (x, y). split; [| by left].
    apply elem_of_combinations2_cons. left. split; [done | left].
  - exists (x, i). split; [| by right].
    apply elem_of_combinations2_cons. by left.
Qed.

Section FilterErrors.
Context {A : Type} `{Dtype A}.
Implicit Types (points : list (Point A)) (simplices : list Simplex).
Implicit Types (simplex : Simplex) (edge : nat * nat) (st : list Edge * list Edge).

Lemma getitem_Raise {X : Type} (l : list X) (i : nat) (e : exn) :
  getitem l i = Raise e → e = IndexError.
Proof. unfold getitem. destruct (l !! i); congruence. Qed.

Lemma neighbor_step_Raise points edge px py (removed_edges : list Edge) (c : nat) e :
  neighbor_step points edge px py removed_edges c = Raise e → e = IndexError.
Proof.
  unfold neighbor_step. destruct (getitem points c) as [pc | e'] eqn:Hc.
  - by destruct (_inside_midpoint_circle px py pc).
  - intros [= <-]. by eapply getitem_Raise.
Qed.

Lemma edge_step_Raise points simplex st edge e :
  edge_step points simplex st edge = Raise e → e = IndexError.
Proof.
  destruct st as [E R]. unfold edge_step. rewrite tuple_in_false. simpl.
  destruct (getitem points edge.1) as [px | e1] eqn:Hx;
    [| intros [= <-]; by eapply getitem_Raise].
  destruct (getitem points edge.2) as [py | e2] eqn:Hy;
    [| intros [= <-]; by eapply getitem_Raise].
  destruct (foldM _ R (neighbors simplex edge)) as [R' | e3] eqn:Hn; [done |].
  intros [= <-]. apply foldM_Raise_some in Hn as (R1 & c & _ & Hc).
  by eapply neighbor_step_Raise.
Qed.

Lemma edge_step_Ok_lt points simplex st st' edge :
  edge_step points simplex st edge = Ok st' →
  edge.1 < length points ∧ edge.2 < length points.
Proof.
  destruct st as [E R]. unfold edge_step. rewrite tuple_in_false. simpl.
  destruct (getitem points edge.1) as [px | e1] eqn:Hx; [| done].
  destruct (getitem points edge.2) as [py | e2] eqn:Hy; [| done].
  intros _. apply getitem_Ok in Hx, Hy. split; by eapply lookup_lt_Some.
Qed.

Lemma simplex_step_Raise points st simplex e :
  simplex_step points st simplex = Raise e → e = IndexError.
Proof.
  unfold simplex_step. intros (st1 & edge & _ & Hedge)%foldM_Raise_some.
  by eapply edge_step_Raise.
Qed.

Lemma simplex_step_Ok_lt points st st' simplex :
  simplex_step points st simplex = Ok st' → 2 ≤ length simplex →
  Forall (λ i, i < length points) simplex.
Proof.
  unfold simplex_step. intros Hok Hlen. apply Forall_forall. intros i Hi.
  destruct (in_some_combination i simplex Hi Hlen) as (ab & Hab & Hiab).
  destruct (foldM_Ok_each _ _ _ _ Hok ab Hab) as (s1 & s2 & Hstep).
  apply edge_step_Ok_lt in Hstep as [H1 H2]. by destruct Hiab as [<- | <-].
Qed.

Lemma simplex_step_short points st simplex :
  length simplex < 2 → simplex_step points st simplex = Ok st.
Proof. destruct simplex as [| x [| y t]]; simpl; intros Hlen; [done | done | lia]. Qed.

Lemma touched_in_range_runs points simplices :
  touched_in_range points simplices →
  ∀ st, ∃ st', foldM (simplex_step points) st simplices = Ok st'.
Proof.
  induction 1 as [| s l Hs Hl IH]; intros st; simpl; [by exists st |].
  destruct (decide (2 ≤ length s)) as [Hlen | Hlen].
  - destruct (simplex_step_extends points s st (Hs Hlen)) as (st1 & -> & _). apply IH.
  - rewrite simplex_step_short by lia. apply IH.
Qed.

Lemma runs_touched_in_range points simplices st st' :
  foldM (simplex_step points) st simplices = Ok st' → touched_in_range points simplices.
Proof.
  intros Hok. apply Forall_forall. intros s Hs Hlen.
  destruct (foldM_Ok_each _ _ _ _ Hok s Hs) as (s1 & s2 & Hstep).
  by eapply simplex_step_Ok_lt.
Qed.

(** X5: the filter returns a set exactly when every index it reads is a
    row of [points]; otherwise it raises [IndexError], and it raises
    nothing else.  The indices of a simplex with fewer than two vertices
    are not read. *)
Theorem filter_raises_exactly_on_bad_index points simplices :
  (touched_in_range points simplices → ∃ E, gabriel_filter points simplices = Ok E) ∧
  (¬ touched_in_range points simplices → gabriel_filter points simplices = Raise IndexError).
Proof.
  unfold gabriel_filter. split.
  - intros Hr. destruct (touched_in_range_runs points simplices Hr ([], [])) as ([E R] & ->).
    by eexists.
  - intros Hn. destruct (foldM (simplex_step points) ([], []) simplices) as [[E R] | e] eqn:Hrun.
    + destruct Hn. by eapply runs_touched_in_range.
    + apply foldM_Raise_some in Hrun as (st1 & s & _ & Hs).
      apply simplex_step_Raise in Hs. by subst.
Qed.

(** X14: every index in a returned edge is a row of [points], so a caller
    can index [points] with the endpoints of any Gabriel edge. *)
Theorem gabriel_edges_index_points {Callable : Type}
    (self : GraphTools A Callable) points (tri : Delaunay.t) :
  triangulation self = Some tri →
  in_range points (Delaunay.simplices tri) →
  ∃ E, _gabriel_graph (Some points) self = (Ok E, self) ∧
       ∀ e i, e ∈ E → i ∈ e → i < length points.
Proof.
  intros Htri Hr.
  destruct (gabriel_filter_returns points _ Hr) as (E & HE & Hspec).
  exists E. rewrite (gabriel_graph_private_run points self tri Htri), HE.
  split; [done |]. intros e i [(s & [a b] & Hs & Hab & ->) _]%Hspec Hi.
  apply elem_of_combinations2 in Hab as [Ha Hb].
  unfold in_range in Hr. rewrite Forall_forall in Hr. specialize (Hr s Hs).
  rewrite Forall_forall in Hr.
  unfold frozenset in Hi. simpl in Hi.
  apply elem_of_union in Hi as [->%elem_of_singleton | ->%elem_of_singleton]; by apply Hr.
Qed.
End FilterErrors.

(** X5 on two points: a triangle that names a third row raises, a lone
    vertex out of range does not. *)
Lemma filter_raises_exactly_on_bad_index_witness :
  (∃ E, gabriel_filter two_points [[7]] = Ok E) ∧
  gabriel_filter two_points [[0; 1; 2]] = Raise IndexError.
Proof.
  split.
  - apply (proj1 (filter_raises_exactly_on_bad_index two_points [[7]])).
    apply (bool_decide_unpack _). by vm_compute.
  - apply (proj2 (filter_raises_exactly_on_bad_index two_points [[0; 1; 2]])).
    apply (bool_decide_unpack _). by vm_compute.
Defined.

(** X14 on the square. *)
Lemma gabriel_edges_index_points_witness :
  ∃ E, _gabriel_graph (Some square) square_object = (Ok E, square_object) ∧
       ∀ e i, e ∈ E → i ∈ e → i < length square.
Proof.
  apply (gabriel_edges_index_points square_object square square_tri_02).
  - reflexivity.
  - apply (bool_decide_unpack _). by vm_compute.
Defined.

(** ** More on the returned set *)

Lemma size_list_to_set_le (l : list Edge) : size (list_to_set l : gset Edge) ≤ length l.
Proof.
  induction l as [| e l IH]; [by rewrite list_to_set_nil, size_empty |].
  rewrite list_to_set_cons, size_union_alt, size_singleton. cbn [length].
  assert (size (list_to_set l ∖ {[e]} : gset Edge) ≤ size (list_to_set l : gset Edge)).
  { apply subseteq_size. set_solver. }
  lia.
Qed.

Lemma candidates_of_triangles (simplices : list Simplex) :
  Forall (λ s : Simplex, length s = 3) simplices →
  ∃ l : list Edge, length l = 3 * length simplices ∧ ∀ e, candidate simplices e → e ∈ l.
Proof.
  induction 1 as [| s t Hs Ht (l & Hlen & Hl)].
  - exists []. split; [done |]. by intros e (s & edge & ?%elem_of_nil & _).
  - destruct s as [| x [| y [| z [| w s]]]]; simpl in Hs; try lia.
    exists ([frozenset (x, y); frozenset (x, z); frozenset (y, z)] ++ l). split.
    { rewrite length_app, Hlen. simpl. lia. }
    intros e (s' & edge & [-> | Hs']%elem_of_cons & Hedge & ->).
    + apply elem_of_app. left. simpl in Hedge. set_solver.
    + apply elem_of_app. right. apply Hl. by exists s', edge.
Qed.

Lemma Forall2_Permutation_elem_l (l1 l2 : list Simplex) (s : Simplex) :
  Forall2 (≡ₚ) l1 l2 → s ∈ l1 → ∃ s', s' ∈ l2 ∧ s ≡ₚ s'.
Proof.
  induction 1 as [| x y l1 l2 Hxy Hl IH]; [by intros ?%elem_of_nil |].
  intros [-> | Hs]%elem_of_cons.
  - exists y. split; [left | done].
  - destruct (IH Hs) as (s' & ? & ?). exists s'. split; [by right | done].
Qed.

Lemma Forall2_Permutation_elem_r (l1 l2 : list Simplex) (s' : Simplex) :
  Forall2 (≡ₚ) l1 l2 → s' ∈ l2 → ∃ s, s ∈ l1 ∧ s ≡ₚ s'.
Proof.
  induction 1 as [| x y l1 l2 Hxy Hl IH]; [by intros ?%elem_of_nil |].
  intros [-> | Hs]%elem_of_cons.
  - exists x. split; [left | done].
  - destruct (IH Hs) as (s & ? & ?). exists s. split; [by right | done].
Qed.

Section MoreBuilder.
Context {A : Type} `{Dtype A} {Callable : Type}.
Implicit Types (self : GraphTools A Callable) (pts : list (Point A)).

(** X13: on a triangulation made of triangles the builder returns at
    most three edges per triangle. *)
Theorem gabriel_edges_at_most_three_per_triangle self pts (tri : Delaunay.t) :
  triangulation self = Some tri →
  in_range pts (Delaunay.simplices tri) →
  Forall (λ s : Simplex, length s = 3) (Delaunay.simplices tri) →
  ∃ E, _gabriel_graph (Some pts) self = (Ok E, self) ∧
       size E ≤ 3 * length (Delaunay.simplices tri).
Proof.
  intros Htri Hr H3.
  destruct (gabriel_filter_returns pts _ Hr) as (E & HE & Hspec).
  destruct (candidates_of_triangles _ H3) as (l & Hlen & Hl).
  exists E. rewrite (gabriel_graph_private_run pts self tri Htri), HE.
  split; [done |]. rewrite <- Hlen.
  etrans; [| apply size_list_to_set_le].
  apply subseteq_size. intros e [Hc _]%Hspec.
  apply elem_of_list_to_set. by apply Hl.
Qed.

(** X15: the order of the vertices inside each simplex does not matter:
    two triangulations whose simplices are, one by one, permutations of
    each other give the same set. *)
Theorem gabriel_graph_vertex_order_independent `{!DtypeSym A}
    self1 self2 pts (l1 l2 : list Simplex) :
  triangulation self1 = Some (Delaunay.mk l1) →
  triangulation self2 = Some (Delaunay.mk l2) →
  valid_triangulation pts l1 →
  Forall2 (≡ₚ) l1 l2 →
  ∃ E, _gabriel_graph (Some pts) self1 = (Ok E, self1) ∧
       _gabriel_graph (Some pts) self2 = (Ok E, self2).
Proof.
  intros Ht1 Ht2 Hv1 Hperm.
  assert (Hv2 : valid_triangulation pts l2).
  { unfold valid_triangulation in *. rewrite Forall_forall in Hv1. apply Forall_forall.
    intros s' Hs'. destruct (Forall2_Permutation_elem_r l1 l2 s' Hperm Hs') as (s & Hs & Hp).
    destruct (Hv1 s Hs) as [Hnd Hlt]. by rewrite <- Hp. }
  destruct (gabriel_filter_unordered pts l1 Hv1) as (E1 & HE1 & Hp1 & Hi1).
  destruct (gabriel_filter_unordered pts l2 Hv2) as (E2 & HE2 & Hp2 & Hi2).
  assert (Hedge : ∀ a b, delaunay_edge l1 a b ↔ delaunay_edge l2 a b).
  { intros a b. split.
    - intros (s & Hs & Ha & Hb).
      destruct (Forall2_Permutation_elem_l l1 l2 s Hperm Hs) as (s' & Hs' & Hp).
      exists s'. split; [done |]. by rewrite <- Hp.
    - intros (s' & Hs' & Ha & Hb).
      destruct (Forall2_Permutation_elem_r l1 l2 s' Hperm Hs') as (s & Hs & Hp).
      exists s. split; [done |]. by rewrite Hp. }
  assert (Hcirc : ∀ a b, empty_circle pts l1 a b ↔ empty_circle pts l2 a b).
  { intros a b. split.
    - intros Hemp s' c pa pb pc Hs' Ha Hb Hc Hca Hcb Hpa Hpb Hpc.
      destruct (Forall2_Permutation_elem_r l1 l2 s' Hperm Hs') as (s & Hs & Hp).
      apply (Hemp s c pa pb pc Hs); try done; by rewrite Hp.
    - intros Hemp s c pa pb pc Hs Ha Hb Hc Hca Hcb Hpa Hpb Hpc.
      destruct (Forall2_Permutation_elem_l l1 l2 s Hperm Hs) as (s' & Hs' & Hp).
      apply (Hemp s' c pa pb pc Hs'); try done; by rewrite <- Hp. }
  assert (E1 = E2) as <-.
  { apply set_eq. intros e. split.
    - intros He. destruct (Hp1 e He) as (a & b & Hne & -> & _).
      apply Hi2; [done |]. apply Hi1 in He as [? ?]; [| done].
      split; [by apply Hedge | by apply Hcirc].
    - intros He. destruct (Hp2 e He) as (a & b & Hne & -> & _).
      apply Hi1; [done |]. apply Hi2 in He as [? ?]; [| done].
      split; [by apply Hedge | by apply Hcirc]. }
  exists E1.
  rewrite (gabriel_graph_private_run pts self1 _ Ht1), (gabriel_graph_private_run pts self2 _ Ht2).
  simpl. by rewrite HE1, HE2.
Qed.
End MoreBuilder.

(** X4: for a single triangle, [_gabriel_graph] returns sides of the
    triangle only, and a side exactly when its computed squared length
    is not greater than the computed sum of the squared lengths of the
    other two sides. *)
Theorem single_triangle_edges {A : Type} {D : Dtype A} {DS : DtypeSym A} {Callable : Type}
    (self : GraphTools A Callable) (a1 a2 b1 b2 c1 c2 : A) (s : Simplex) :
  triangulation self = Some (Delaunay.mk [s]) →
  s ≡ₚ [0; 1; 2] →
  ∃ E, _gabriel_graph (Some [[a1; a2]; [b1; b2]; [c1; c2]]) self = (Ok E, self) ∧
       E ⊆ three_edges ∧
       ({[1; 2]} ∈ E ↔
          d_gtb (computed_sq2 b1 b2 c1 c2)
                (d_add (computed_sq2 a1 a2 b1 b2) (computed_sq2 a1 a2 c1 c2)) = false) ∧
       ({[0; 2]} ∈ E ↔
          d_gtb (computed_sq2 a1 a2 c1 c2)
                (d_add (computed_sq2 a1 a2 b1 b2) (computed_sq2 b1 b2 c1 c2)) = false) ∧
       ({[0; 1]} ∈ E ↔
          d_gtb (computed_sq2 a1 a2 b1 b2)
                (d_add (computed_sq2 a1 a2 c1 c2) (computed_sq2 b1 b2 c1 c2)) = false).
Proof.
  intros Htri Hperm.
  destruct (single_triangle_filter a1 a2 b1 b2 c1 c2 s Hperm)
    as (E & HE & _ & Hsub & H12 & H02 & H01).
  exists E. rewrite (gabriel_graph_private_run _ self _ Htri). simpl. rewrite HE.
  done.
Qed.

(** X4 on [float64]: the triangle (0,0), (0.1,0.2), (-0.2,0.1), whose
    angle at (0,0) is exactly 90 degrees, loses the side from row 1 to
    row 2, because 0.10000000000000003 > 0.10000000000000002. *)
Lemma single_triangle_edges_witness :
  ∃ E, _gabriel_graph (Some right_angle_f)
         (rebuilt right_angle_f (Delaunay.mk [[0; 1; 2]]) three_edges None
            : GraphTools float metric_f)
       = (Ok E, rebuilt right_angle_f (Delaunay.mk [[0; 1; 2]]) three_edges None) ∧
       E ⊆ three_edges ∧ ({[1; 2]} ∉ E) ∧ {[0; 2]} ∈ E ∧ {[0; 1]} ∈ E.
Proof.
  destruct (single_triangle_edges
              (rebuilt right_angle_f (Delaunay.mk [[0; 1; 2]]) three_edges None
                 : GraphTools float metric_f)
              0%float 0%float 0x1.999999999999ap-4%float 0x1.999999999999ap-3%float
              (-0x1.999999999999ap-3)%float 0x1.999999999999ap-4%float [0; 1; 2]
              ltac:(reflexivity) ltac:(reflexivity))
    as (E & Hrun & Hsub & H12 & H02 & H01).
  exists E. split; [exact Hrun |]. split; [exact Hsub |]. split_and!.
  - intros Hin. apply H12 in Hin. discriminate Hin.
  - apply H02. reflexivity.
  - apply H01. reflexivity.
Defined.

(** X13 on the square: two triangles, at most six edges. *)
Lemma gabriel_edges_at_most_three_per_triangle_witness :
  ∃ E, _gabriel_graph (Some square) square_object = (Ok E, square_object) ∧
       size E ≤ 3 * length (Delaunay.simplices square_tri_02).
Proof.
  apply (gabriel_edges_at_most_three_per_triangle square_object square square_tri_02).
  - reflexivity.
  - apply (bool_decide_unpack _). by vm_compute.
  - apply (bool_decide_unpack _). by vm_compute.
Defined.

(** X15 on the square, the vertices of both triangles rotated. *)
Lemma gabriel_graph_vertex_order_independent_witness :
  ∃ E, _gabriel_graph (Some square) square_object = (Ok E, square_object) ∧
       _gabriel_graph (Some square)
         (rebuilt square (Delaunay.mk [[1; 2; 0]; [3; 0; 2]]) ∅ None : GraphTools Z metric_fn)
       = (Ok E, rebuilt square (Delaunay.mk [[1; 2; 0]; [3; 0; 2]]) ∅ None).
Proof.
  apply (gabriel_graph_vertex_order_independent square_object _ square
           [[0; 1; 2]; [0; 2; 3]] [[1; 2; 0]; [3; 0; 2]]).
  - reflexivity.
  - reflexivity.
  - exact square_valid.
  - repeat constructor.
    + apply (bool_decide_unpack _). by vm_compute.
    + apply (bool_decide_unpack _). by vm_compute.
Defined.

(** X6 on the obtuse triangle listed twice, where the documented guard
    does skip an edge. *)
Lemma documented_filter_agrees_witness :
  documented_filter obtuse_triangle [[0; 1; 2]; [1; 0; 2]]
  = gabriel_filter obtuse_triangle [[0; 1; 2]; [1; 0; 2]].
Proof.
  apply (documented_filter_agrees obtuse_triangle [[0; 1; 2]; [1; 0; 2]]).
  apply (bool_decide_unpack _). by vm_compute.
Defined.

(** ** More on the object protocol *)

Section MoreProtocol.
Context {A : Type} `{Dtype A} {Callable : Type}.
Variable Delaunay : list (Point A) → result Delaunay.t.
Implicit Types (self : GraphTools A Callable) (pts : list (Point A)).
Implicit Types (m : option Callable).

Lemma init_filter_raises pts m self (tri : Delaunay.t) e :
  Delaunay pts = Ok tri →
  gabriel_filter pts (Delaunay.simplices tri) = Raise e →
  __init__ Delaunay (Some pts) m self = (Raise e, half_rebuilt pts tri self).
Proof.
  intros HD HE.
  unfold __init__, _delaunay_triangulation, _gabriel_graph,
    mbind, M_bind, bind, getattr, lift, set_points, set_triangulation,
    set_simplices, set_gabriel_edges, set_metric.
  simpl. rewrite HD. simpl. by rewrite HE.
Qed.

Lemma delaunay_ok pts self (tri : Delaunay.t) E :
  Delaunay pts = Ok tri →
  gabriel_filter pts (Delaunay.simplices tri) = Ok E →
  delaunay Delaunay (Some pts) self = (Ok tri, rebuilt pts tri E None).
Proof.
  intros HD HE. unfold delaunay, mbind, M_bind, bind.
  by rewrite (init_ok Delaunay pts None self tri E).
Qed.

(** X7: when the provider returns but the filter raises, the exception
    reaches the caller of [__init__], of [gabriel_graph], of [delaunay]
    and of the constructor; by then [points], [triangulation] and
    [simplices] hold the new values, while [gabriel_edges] and [metric]
    are the ones from before. *)
Theorem failed_filter_leaves_half_rebuilt pts m self (tri : Delaunay.t) e :
  Delaunay pts = Ok tri →
  gabriel_filter pts (Delaunay.simplices tri) = Raise e →
  __init__ Delaunay (Some pts) m self = (Raise e, half_rebuilt pts tri self) ∧
  gabriel_graph Delaunay (Some pts) self = (Raise e, half_rebuilt pts tri self) ∧
  delaunay Delaunay (Some pts) self = (Raise e, half_rebuilt pts tri self) ∧
  new Delaunay (Some pts) m = Raise e.
Proof.
  intros HD HE. split_and!.
  - by apply init_filter_raises.
  - unfold gabriel_graph, mbind, M_bind, bind.
    by rewrite (init_filter_raises pts None self tri e).
  - unfold delaunay, mbind, M_bind, bind.
    by rewrite (init_filter_raises pts None self tri e).
  - unfold new. by rewrite (init_filter_raises pts m fresh tri e).
Qed.

(** X8: a rebuild through [gabriel_graph(points)] or [delaunay(points)]
    that returns leaves [metric] at [None], whatever metric the object
    held: both call [__init__] with the points only. *)
Theorem rebuild_resets_metric pts self (tri : Delaunay.t) :
  Delaunay pts = Ok tri →
  in_range pts (Delaunay.simplices tri) →
  ∃ E self1 self2,
    gabriel_graph Delaunay (Some pts) self = (Ok E, self1) ∧ metric self1 = Some None ∧
    delaunay Delaunay (Some pts) self = (Ok tri, self2) ∧ metric self2 = Some None.
Proof.
  intros HD Hr. destruct (gabriel_filter_returns pts _ Hr) as (E & HE & _).
  exists E, (rebuilt pts tri E None), (rebuilt pts tri E None). split_and!; try done.
  - by apply gabriel_graph_ok.
  - by apply delaunay_ok.
Qed.

(** X9: [delaunay(points)] rebuilds the Gabriel edges as well.  After it,
    the queries without points return the new triangulation and the edge
    set that [gabriel_graph(points)] would have returned, and leave the
    object as it is. *)
Theorem delaunay_then_query pts self (tri : Delaunay.t) :
  Delaunay pts = Ok tri →
  in_range pts (Delaunay.simplices tri) →
  ∃ E self',
    delaunay Delaunay (Some pts) self = (Ok tri, self') ∧
    gabriel_graph Delaunay None self' = (Ok E, self') ∧
    delaunay Delaunay None self' = (Ok tri, self') ∧
    gabriel_graph Delaunay (Some pts) self = (Ok E, self').
Proof.
  intros HD Hr. destruct (gabriel_filter_returns pts _ Hr) as (E & HE & _).
  exists E, (rebuilt pts tri E None). split_and!; try done.
  - by apply delaunay_ok.
  - by apply gabriel_graph_ok.
Qed.

(** X10: rebuilding twice with the same points is the same as rebuilding
    once: the second call returns the same set and leaves the object as
    the first call left it. *)
Theorem rebuild_twice pts self (tri : Delaunay.t) :
  Delaunay pts = Ok tri →
  in_range pts (Delaunay.simplices tri) →
  ∃ E self',
    gabriel_graph Delaunay (Some pts) self = (Ok E, self') ∧
    gabriel_graph Delaunay (Some pts) self' = (Ok E, self').
Proof.
  intros HD Hr. destruct (gabriel_filter_returns pts _ Hr) as (E & HE & _).
  exists E, (rebuilt pts tri E None). split; by apply gabriel_graph_ok.
Qed.

(** X11: after a rebuild in which the provider raised, a query without
    points still returns the edge set cached before, although [points]
    is by now the array that could not be triangulated. *)
Theorem failed_rebuild_then_query pts self e (E0 : gset Edge) :
  gabriel_edges self = Some E0 →
  Delaunay pts = Raise e →
  ∃ self',
    gabriel_graph Delaunay (Some pts) self = (Raise e, self') ∧
    gabriel_graph Delaunay None self' = (Ok E0, self') ∧
    points self' = Some pts.
Proof.
  intros HE HD. exists (with_points pts self). split_and!; try done.
  - by apply gabriel_graph_provider_raises.
  - unfold gabriel_graph, mbind, M_bind, bind, getattr, ret. simpl. by rewrite HE.
Qed.

(** X12: an object constructed without points answers the queries
    without points with [AttributeError], for the attribute it never
    assigned, and stays as it is. *)
Theorem query_on_object_without_points m :
  ∃ self,
    new Delaunay None m = Ok self ∧
    gabriel_graph Delaunay None self = (Raise (AttributeError "gabriel_edges"), self) ∧
    delaunay Delaunay None self = (Raise (AttributeError "triangulation"), self).
Proof. by exists (without_points m). Qed.
End MoreProtocol.

Example bad_filter_run : gabriel_filter right_triangle [[0; 1; 5]] = Raise IndexError.
Proof. apply (bool_decide_unpack _). by vm_compute. Qed.

(** X7 with a provider that names a row the array does not have. *)
Lemma failed_filter_leaves_half_rebuilt_witness :
  __init__ bad_Delaunay (Some right_triangle) None (fresh : GraphTools Z metric_fn)
    = (Raise IndexError, half_rebuilt right_triangle (Delaunay.mk [[0; 1; 5]]) fresh) ∧
  gabriel_graph bad_Delaunay (Some right_triangle) (fresh : GraphTools Z metric_fn)
    = (Raise IndexError, half_rebuilt right_triangle (Delaunay.mk [[0; 1; 5]]) fresh) ∧
  delaunay bad_Delaunay (Some right_triangle) (fresh : GraphTools Z metric_fn)
    = (Raise IndexError, half_rebuilt right_triangle (Delaunay.mk [[0; 1; 5]]) fresh) ∧
  new (Callable := metric_fn) bad_Delaunay (Some right_triangle) None = Raise IndexError.
Proof.
  apply (failed_filter_leaves_half_rebuilt bad_Delaunay right_triangle None fresh
           (Delaunay.mk [[0; 1; 5]]) IndexError).
  - reflexivity.
  - exact bad_filter_run.
Defined.

(** X8 on an object that was constructed with a metric. *)
Lemma rebuild_resets_metric_witness :
  metric (rebuilt right_triangle (Delaunay.mk [[0; 1; 2]]) three_edges (Some constant_metric))
    = Some (Some constant_metric) ∧
  ∃ E self1 self2,
    gabriel_graph stub_Delaunay (Some right_triangle)
      (rebuilt right_triangle (Delaunay.mk [[0; 1; 2]]) three_edges (Some constant_metric))
      = (Ok E, self1) ∧ metric self1 = Some None ∧
    delaunay stub_Delaunay (Some right_triangle)
      (rebuilt right_triangle (Delaunay.mk [[0; 1; 2]]) three_edges (Some constant_metric))
      = (Ok (Delaunay.mk [[0; 1; 2]]), self2) ∧ metric self2 = Some None.
Proof.
  split; [reflexivity |].
  apply (rebuild_resets_metric stub_Delaunay right_triangle _ (Delaunay.mk [[0; 1; 2]])).
  - exact stub_on_right_triangle.
  - apply (bool_decide_unpack _). by vm_compute.
Defined.

(** X9 on the right triangle, from a fresh object. *)
Lemma delaunay_then_query_witness :
  ∃ E (self' : GraphTools Z metric_fn),
    delaunay stub_Delaunay (Some right_triangle) fresh = (Ok (Delaunay.mk [[0; 1; 2]]), self') ∧
    gabriel_graph stub_Delaunay None self' = (Ok E, self') ∧
    delaunay stub_Delaunay None self' = (Ok (Delaunay.mk [[0; 1; 2]]), self') ∧
    gabriel_graph stub_Delaunay (Some right_triangle) fresh = (Ok E, self').
Proof.
  apply (delaunay_then_query stub_Delaunay right_triangle fresh (Delaunay.mk [[0; 1; 2]])).
  - exact stub_on_right_triangle.
  - apply (bool_decide_unpack _). by vm_compute.
Defined.

(** X10 on the right triangle, from a fresh object. *)
Lemma rebuild_twice_witness :
  ∃ E (self' : GraphTools Z metric_fn),
    gabriel_graph stub_Delaunay (Some right_triangle) fresh = (Ok E, self') ∧
    gabriel_graph stub_Delaunay (Some right_triangle) self' = (Ok E, self').
Proof.
  apply (rebuild_twice stub_Delaunay right_triangle fresh (Delaunay.mk [[0; 1; 2]])).
  - exact stub_on_right_triangle.
  - apply (bool_decide_unpack _). by vm_compute.
Defined.

(** X11 on the triangle object, rebuilt with two points. *)
Lemma failed_rebuild_then_query_witness :
  ∃ self',
    gabriel_graph stub_Delaunay (Some two_points) triangle_object
      = (Raise DegenerateInputError, self') ∧
    gabriel_graph stub_Delaunay None self' = (Ok three_edges, self') ∧
    points self' = Some two_points.
Proof.
  apply (failed_rebuild_then_query stub_Delaunay two_points triangle_object
           DegenerateInputError three_edges).
  - reflexivity.
  - exact stub_on_two_points.
Defined.
